(** * Label-curation engine of [aesthetic_scoring]

    A shallow embedding of the record store handling in
    [03_label_images.py] (the interactive labelling session) and
    [05_predict_labels.py] (the offline prediction pass), together with the
    properties of the store, the review-order planner and the session walk.
    The backup of the label file, the layout of the network of
    [utils/nn_model.py] and the epochs of [_4_train_model.py] follow.

    Conventions of the embedding.
    - A pandas [DataFrame] is its list of column names and its list of rows, in
      row order; the index is always the [RangeIndex] 0..n-1 (every
      [pd.concat] in the sources passes [ignore_index=True]).
    - A float cell is a rational ([Q]) and stands for the double nearest to
      it; [None] stands for a missing value (NaN, [None] or an empty CSV
      cell).  Where the code computes with floats, in the planner, the
      results are rounded as doubles are ([float64]).
    - An image file is represented by its uuid: the sources go from uuid to
      path with [os.path.join(root_directory, uuid + ".jpg")] and back with
      [os.path.basename(path).split(".")[0]].
    - Python exceptions are values of [PyError] in the [result] monad. *)

From Stdlib Require Import QArith Qabs ZArith Sorting.Sorted Permutation.
From Stdlib Require Import Ascii.
From stdpp Require Import base list strings gmap.

Open Scope Z_scope.

(** ** Exceptions *)

Inductive PyError : Type :=
  | KeyError
  | IndexError.

Inductive result (A : Type) : Type :=
  | Ok (a : A)
  | Raise (e : PyError).

Arguments Ok {A} a.
Arguments Raise {A} e.

#[global] Instance result_ret : MRet result := fun A a => Ok a.
#[global] Instance result_bind : MBind result := fun A B f m =>
  match m with
  | Ok a => f a
  | Raise e => Raise e
  end.

(** ** The record store *)

Record Row : Type := mkRow {
  uuid : string;
  label : option Q;
  timestamp : option Z;
  predicted_label : option Q;
  distance_from_median : option Q
}.

Record DataFrame : Type := mkDataFrame {
  columns : list string;
  rows : list Row
}.

Definition set_label (v : option Q) (r : Row) : Row :=
  mkRow (uuid r) v (timestamp r) (predicted_label r) (distance_from_median r).

Definition set_timestamp (v : option Z) (r : Row) : Row :=
  mkRow (uuid r) (label r) v (predicted_label r) (distance_from_median r).

Definition set_predicted_label (v : option Q) (r : Row) : Row :=
  mkRow (uuid r) (label r) (timestamp r) v (distance_from_median r).

Definition set_distance_from_median (v : option Q) (r : Row) : Row :=
  mkRow (uuid r) (label r) (timestamp r) (predicted_label r) v.

(** [pd.DataFrame(columns=["uuid", "label", "timestamp"])] *)
Definition empty_database : DataFrame :=
  mkDataFrame ["uuid"; "label"; "timestamp"] [].

(** A column named in an assignment is created when it does not exist yet
    (its cells are missing everywhere else). *)
Definition add_column (c : string) (cols : list string) : list string :=
  if bool_decide (c ∈ cols) then cols else cols ++ [c].

(** [database.loc[index, c] = v], for the column [c] that [f] writes. *)
Definition loc_set (index : nat) (c : string) (f : Row → Row) (db : DataFrame)
  : DataFrame :=
  mkDataFrame (add_column c (columns db)) (alter f index (rows db)).

(** [pd.concat([database, pd.DataFrame([new_row])], ignore_index=True)] where
    [cs] are the keys of [new_row]. *)
Definition concat_row (cs : list string) (new_row : Row) (db : DataFrame)
  : DataFrame :=
  mkDataFrame (foldl (fun cols c => add_column c cols) (columns db) cs)
              (rows db ++ [new_row]).

(** [database.loc[database["uuid"] == uuid]]: the rows of that uuid, in row
    order. *)
Definition loc_uuid (u : string) (db : DataFrame) : list Row :=
  filter (fun r => uuid r = u) (rows db).

(** [database.loc[database['uuid'] == uuid].index[0]] *)
Definition first_index (u : string) (db : DataFrame) : result nat :=
  match list_find (fun r => uuid r = u) (rows db) with
  | Some (i, _) => Ok i
  | None => Raise IndexError
  end.

(** A cell passes the presence test of the sources,
    [(label is not None) and (not np.isnan(label))]. *)
Definition present (c : option Q) : bool :=
  match c with Some _ => true | None => false end.

(** ** Persistence: [database.to_csv(label_file, index=False)]

    The file written is a header line followed by one line per row.  The
    file system is a finite map from paths to the lines they hold, and a save
    is the sequence of operations it performs on that map, so that what a
    crash leaves behind is the state after a prefix of them.

    [to_csv] opens the path it is given for writing, which empties the file,
    and writes the text through a buffered stream: the text reaches the file
    when the buffer is flushed, at the latest when the file is closed.  The
    flushes are taken together as one operation: the states in which the
    file holds an initial part of the text, cut where the buffer happened to
    be full, are not represented. *)

Inductive csv_line : Type :=
  | CsvHeader (cols : list string)
  | CsvRecord (r : Row).

Definition csv_lines (db : DataFrame) : list csv_line :=
  CsvHeader (columns db) :: map CsvRecord (rows db).

Inductive fs_op : Type :=
  | FsOpenW (path : string)                  (* open(path, "w"): truncates *)
  | FsWrite (path : string) (ls : list csv_line)  (* the text reaches the file *)
  | FsReplace (src dst : string).            (* os.replace(src, dst) *)

Definition exec_op (fs : gmap string (list csv_line)) (op : fs_op)
  : gmap string (list csv_line) :=
  match op with
  | FsOpenW path => <[path := []]> fs
  | FsWrite path ls => alter (fun c => c ++ ls) path fs
  | FsReplace src dst =>
      match fs !! src with
      | Some c => <[dst := c]> (delete src fs)
      | None => fs
      end
  end.

Definition exec_ops (ops : list fs_op) (fs : gmap string (list csv_line))
  : gmap string (list csv_line) :=
  foldl exec_op fs ops.

Definition to_csv (path : string) (db : DataFrame) : list fs_op :=
  [FsOpenW path; FsWrite path (csv_lines db)].

Definition save (path : string) (db : DataFrame)
  (fs : gmap string (list csv_line)) : gmap string (list csv_line) :=
  exec_ops (to_csv path db) fs.

(** The operations [write-to-temporary-then-replace] would perform; the
    sources never do this, it is what an atomic save looks like. *)
Definition to_csv_atomic (tmp path : string) (db : DataFrame) : list fs_op :=
  to_csv tmp db ++ [FsReplace tmp path].

(** What a reader of [path] may see of a save of [db] over the old content
    [old] when the save is atomic: the old file or the complete new one. *)
Definition atomic_view (old : option (list csv_line)) (db : DataFrame)
  (seen : option (list csv_line)) : Prop :=
  seen = old ∨ seen = Some (csv_lines db).

(** ** numpy and pandas operations used by the planner *)

(** *** Floats

    A float is written as a rational and stands for the double nearest to
    it: [float64 x] is that double, [x] rounded to 53 significant bits (to
    fewer among the subnormal numbers), ties going to the even mantissa.
    The arithmetic of the planner rounds its results with it.  Numbers beyond
    the largest double are outside the model: the frames hold scores. *)

Definition round_half_even (n d : Z) : Z :=
  let k := n / d in
  match 2 * (n mod d) ?= d with
  | Lt => k
  | Gt => k + 1
  | Eq => if Z.even k then k else k + 1
  end.

Definition float64 (x : Q) : Q :=
  let n := Z.abs (Qnum x) in
  let d := Z.pos (Qden x) in
  if n =? 0 then 0%Q
  else
    (* e = floor (log2 (n / d)), u the exponent of the last bit kept *)
    let e0 := Z.log2 n - Z.log2 d in
    let e := if (if 0 <=? e0 then d * 2 ^ e0 <=? n else d <=? n * 2 ^ (- e0))
             then e0 else e0 - 1 in
    let u := Z.max (e - 52) (-1074) in
    let m := if 0 <=? u then round_half_even n (d * 2 ^ u)
             else round_half_even (n * 2 ^ (- u)) d in
    let m := if Qnum x <? 0 then - m else m in
    if 0 <=? u then inject_Z (m * 2 ^ u) else (m # Z.to_pos (2 ^ (- u)))%Q.

(** *** Sorting *)

(** Insertion sort, stable: an element is put in front of the first element
    that is not smaller. *)
Fixpoint insert_by {A : Type} (leb : A → A → bool) (x : A) (l : list A)
  : list A :=
  match l with
  | [] => [x]
  | y :: l' => if leb x y then x :: l else y :: insert_by leb x l'
  end.

Definition sort_by {A : Type} (leb : A → A → bool) (l : list A) : list A :=
  foldr (insert_by leb) [] l.

Definition key_leb {A : Type} (key : A → Q) (x y : A) : bool :=
  Qle_bool (key x) (key y).

(** [np.argsort(values)] on an array without NaN.  The default
    [kind="quicksort"] is not a stable sort, and which order it gives to
    equal values depends on the length of the array and on the build of
    numpy.  The planner therefore takes the routine as a parameter
    [argsort], of which [sorts] says what numpy promises: the positions of
    the array, each once, in an order in which the values do not decrease.

    [np_argsort] is the routine for arrays of at most 16 elements, which
    numpy's introsort sorts by insertion. *)
Definition sorts (argsort : list Q → list nat) : Prop :=
  ∀ values,
    argsort values ≡ₚ seq 0 (length values) ∧
    StronglySorted
      (fun i j => (default 0 (values !! i) <= default 0 (values !! j))%Q)
      (argsort values).

Definition np_argsort (values : list Q) : list nat :=
  map fst (sort_by (key_leb snd) (imap (fun i v => (i, v)) values)).

(** How [Series.argsort] treats missing values.  Up to pandas 2 the result
    holds -1 at the positions of missing values and, at the other positions,
    the argsort of the array with the missing values removed.  From pandas 3
    on the missing values are ordered last. *)
Inductive na_policy : Type :=
  | NaMinusOne
  | NaLast.

(** [result = np.full(n, -1); result[notmask] = order] *)
Fixpoint scatter (values : list (option Q)) (order : list nat) : list Z :=
  match values with
  | [] => []
  | None :: vs => (-1) :: scatter vs order
  | Some _ :: vs =>
      match order with
      | o :: os => Z.of_nat o :: scatter vs os
      | [] => []
      end
  end.

(** The positions of the present, and of the missing, values. *)
Definition notna_idx (values : list (option Q)) : list nat :=
  omap (fun iv => if present iv.2 then Some iv.1 else None)
       (imap (fun i v => (i, v)) values).

Definition isna_idx (values : list (option Q)) : list nat :=
  omap (fun iv => if present iv.2 then None else Some iv.1)
       (imap (fun i v => (i, v)) values).

(** The doubles of the present values of a column, in row order. *)
Definition notna_values (values : list (option Q)) : list Q :=
  map float64 (omap id values).

(** [series.argsort().values] *)
Definition series_argsort (argsort : list Q → list nat) (pol : na_policy)
  (values : list (option Q)) : list Z :=
  let order := argsort (notna_values values) in
  match pol with
  | NaMinusOne =>
      if forallb present values
      then map Z.of_nat order
      else scatter values order
  | NaLast =>
      map Z.of_nat
          (omap (fun o => notna_idx values !! o) order ++ isna_idx values)
  end.

(** [series.median()]: missing values are skipped; NaN when none is left.
    With an even number of values it is the mean of the two in the middle,
    their sum divided by two. *)
Definition series_median (values : list (option Q)) : option Q :=
  let xs := sort_by Qle_bool (notna_values values) in
  let n := length xs in
  if Nat.even n
  then a ← xs !! (n / 2 - 1)%nat; b ← xs !! (n / 2)%nat;
       Some (float64 (float64 (a + b) / 2))%Q
  else xs !! (n / 2)%nat.

(** [abs(x - median)], NaN when either side is. *)
Definition abs_diff (x median : option Q) : option Q :=
  a ← x; m ← median; Some (Qabs (float64 (float64 a - float64 m)))%Q.

(** Python sequence indexing [l[i]], negative indices counting from the
    end. *)
Definition py_index {A : Type} (l : list A) (i : Z) : result A :=
  let n := Z.of_nat (length l) in
  let j := if bool_decide (i < 0) then n + i else i in
  if bool_decide (0 ≤ j < n)
  then match l !! Z.to_nat j with
       | Some x => Ok x
       | None => Raise IndexError
       end
  else Raise IndexError.

(** [array[indices]] with an integer index array. *)
Fixpoint np_take {A : Type} (array : list A) (indices : list Z)
  : result (list A) :=
  match indices with
  | [] => Ok []
  | i :: rest =>
      x ← py_index array i;
      xs ← np_take array rest;
      Ok (x :: xs)
  end.

(** [database[c]] for a float column [c] read by [get]. *)
Definition get_column (c : string) (get : Row → option Q) (db : DataFrame)
  : result (list (option Q)) :=
  if bool_decide (c ∈ columns db) then Ok (map get (rows db))
  else Raise KeyError.

(** [database[c] = values] *)
Definition set_column (c : string) (set : option Q → Row → Row)
  (values : list (option Q)) (db : DataFrame) : DataFrame :=
  mkDataFrame (add_column c (columns db))
              (zip_with set values (rows db)).

(** [sorted(glob.glob(os.path.join(root_directory, "*.jpg")))]: the paths
    share the directory, so they are ordered by file name. *)
Definition sorted_jpgs (jpgs : list string) : list string :=
  sort_by (fun a b => String.leb (a +:+ ".jpg") (b +:+ ".jpg")) jpgs.

(** ** Python string and path operations used by the backup *)

(** [needle in hay] *)
Fixpoint contains (needle hay : string) : bool :=
  String.prefix needle hay ||
  match hay with
  | EmptyString => false
  | String _ hay' => contains needle hay'
  end.

(** [s.replace(old, new)] for a non-empty [old]: the occurrences of [old]
    are replaced from left to right, the characters of a replaced occurrence
    being skipped. *)
Fixpoint replace_from (old new : string) (skip : nat) (s : string) : string :=
  match s with
  | EmptyString => EmptyString
  | String c s' =>
      match skip with
      | S k => replace_from old new k s'
      | O =>
          if String.prefix old s
          then new +:+ replace_from old new (String.length old - 1) s'
          else String c (replace_from old new 0 s')
      end
  end.

Definition replace (old new s : string) : string := replace_from old new 0 s.

Definition is_slash (c : Ascii.ascii) : bool := Ascii.eqb c "/"%char.

Fixpoint drop_while {A : Type} (f : A → bool) (l : list A) : list A :=
  match l with
  | [] => []
  | x :: l' => if f x then drop_while f l' else l
  end.

Fixpoint take_while {A : Type} (f : A → bool) (l : list A) : list A :=
  match l with
  | [] => []
  | x :: l' => if f x then x :: take_while f l' else []
  end.

(** [os.path.dirname(p)]: [p] up to its last slash, without the trailing
    slashes unless there is nothing else. *)
Definition dirname (p : string) : string :=
  let head :=
    rev (drop_while (fun c => negb (is_slash c))
                    (rev (String.list_ascii_of_string p))) in
  if forallb is_slash head then String.string_of_list_ascii head
  else String.string_of_list_ascii (rev (drop_while is_slash (rev head))).

(** [os.path.basename(p)] *)
Definition basename (p : string) : string :=
  String.string_of_list_ascii
    (rev (take_while (fun c => negb (is_slash c))
                     (rev (String.list_ascii_of_string p)))).

(** [os.path.join(a, b)] for a [b] that does not start with a slash. *)
Definition path_join (a b : string) : string :=
  match rev (String.list_ascii_of_string a) with
  | [] => b
  | c :: _ => if is_slash c then a +:+ b else a +:+ "/" +:+ b
  end.

(** The label file of a dataset, as both programs name it:
    [os.path.join(os.path.dirname(root_directory),
                  os.path.basename(root_directory) + ".csv")]. *)
Definition label_file_path (root_directory : string) : string :=
  path_join (dirname root_directory) (basename root_directory +:+ ".csv").

(** [glob.has_magic(s)] *)
Fixpoint has_magic (s : string) : bool :=
  match s with
  | EmptyString => false
  | String c s' =>
      Ascii.eqb c "*"%char || Ascii.eqb c "?"%char || Ascii.eqb c "["%char
      || has_magic s'
  end.

(** [strip_prefix p s]: what follows [p] in [s]. *)
Fixpoint strip_prefix (p s : string) : option string :=
  match p with
  | EmptyString => Some s
  | String a p' =>
      match s with
      | String b s' => if Ascii.eqb a b then strip_prefix p' s' else None
      | EmptyString => None
      end
  end.

(** The part of a relative path before its first slash, and whether a slash
    follows. *)
Fixpoint first_component (s : string) : string * bool :=
  match s with
  | EmptyString => (EmptyString, false)
  | String c s' =>
      if is_slash c then (EmptyString, true)
      else let '(name, slash) := first_component s' in (String c name, slash)
  end.

(** A name that [glob] lists for the pattern [*]: not empty, not hidden. *)
Definition visible (name : string) : bool :=
  match name with
  | EmptyString => false
  | String c _ => negb (Ascii.eqb c "."%char)
  end.

(** ** The files of a directory

    The file system maps the paths of the files to their content, each file
    under one path.  A directory is there when a file lies below it. *)

(** What [glob.glob(folder + "/*")] lists because of the file [key]: the
    file itself when it lies in [folder], the sub-directory of [folder] it
    lies below otherwise ([true] marks a directory).  [folder] has no
    wildcard and no trailing slash. *)
Definition listed (folder key : string) : option (string * bool) :=
  rest ← strip_prefix (folder +:+ "/") key;
  let '(name, is_dir) := first_component rest in
  if visible name then Some (folder +:+ "/" +:+ name, is_dir) else None.

Definition glob_star (folder : string) (fs : gmap string (list csv_line))
  : list (string * bool) :=
  omap (listed folder) (elements (dom fs)).

(** [os.path.isdir(d)] *)
Definition is_dir (d : string) (fs : gmap string (list csv_line)) : bool :=
  match d with
  | EmptyString => false
  | _ => existsb (fun key => bool_decide (is_Some (strip_prefix (d +:+ "/") key)))
                 (elements (dom fs))
  end.

(** The exceptions of the file operations. *)
Inductive OSError : Type :=
  | FileNotFoundError
  | SameFileError
  | IsADirectoryError.

(** [shutil.copy(src, dst)]: the copy goes into [dst] when that is a
    directory; the source must exist and differ from the destination, whose
    directory must exist. *)
Definition copy_destination (src dst : string)
  (fs : gmap string (list csv_line)) : string :=
  if is_dir dst fs then path_join dst (basename src) else dst.

Definition shutil_copy (src dst : string) (fs : gmap string (list csv_line))
  : OSError + gmap string (list csv_line) :=
  let dst := copy_destination src dst fs in
  match fs !! src with
  | None => inl FileNotFoundError
  | Some content =>
      if bool_decide (src = dst) then inl SameFileError
      else if is_dir dst fs then inl IsADirectoryError
      else if bool_decide (dirname dst = "") || is_dir (dirname dst) fs
                || forallb is_slash (String.list_ascii_of_string (dirname dst))
           then inr (<[dst := content]> fs)
           else inl FileNotFoundError
  end.

(** ** [03_label_images.py] *)

Module LabelImages.

(** [relabel_image(uuid, label, database)]; [now] is [int(time.time())]. *)
Definition relabel_image (now : Z) (u : string) (l : Q) (db : DataFrame)
  : DataFrame :=
  match loc_uuid u db with
  | [] =>
      concat_row ["uuid"; "label"; "timestamp"]
                 (mkRow u (Some l) (Some now) None None) db
  | _ :: _ =>
      match list_find (fun r => uuid r = u) (rows db) with
      | Some (index_to_update, _) =>
          loc_set index_to_update "timestamp" (set_timestamp (Some now))
            (loc_set index_to_update "label" (set_label (Some l)) db)
      | None => db
      end
  end.

(** [fix_database(database)]: [iterrows] walks a snapshot of the rows, the
    assignment goes to the frame itself. *)
Definition fix_database_step (db : DataFrame) (ir : nat * Row) : DataFrame :=
  let '(index, row) := ir in
  if present (label row)
  then loc_set index "predicted_label" (set_predicted_label (label row)) db
  else db.

Definition iterrows (db : DataFrame) : list (nat * Row) :=
  imap (fun i r => (i, r)) (rows db).

Definition fix_database (db : DataFrame) : DataFrame :=
  foldl fix_database_step db (iterrows db).

(** [load(uuid, database)]: [None] when the uuid has no row, else the label
    cell of its first row. *)
Definition load (u : string) (db : DataFrame) : option (option Q) :=
  match loc_uuid u db with
  | [] => None
  | r :: _ => Some (label r)
  end.

(** The value returned by the sort-options window. *)
Inductive sorting_option : Type :=
  | SortUuid              (* "uuid" *)
  | PredictedBadFirst     (* "Predicted bad first" *)
  | PredictedGoodFirst    (* "Predicted good first" *)
  | Middle.               (* "middle" *)

(** The end of [re_order_images]: the uuids of the rows at the sorted
    indices, [database['uuid'].values[sorted_indices]], each standing for
    the image file [root_directory/uuid.jpg]. *)
Definition files_of_rows (sorted_indices : list Z) (db : DataFrame)
  : result (list string * DataFrame) :=
  uuids ← np_take (map uuid (rows db)) sorted_indices;
  Ok (uuids, db).

(** [re_order_images(image_files, database)].  [root_directory] lists the
    uuids of the [*.jpg] files of the image directory as [glob] returns them,
    [selected] is the choice made in the window, [argsort] the sorting
    routine of numpy.  The "middle" branch writes the [distance_from_median]
    column into the caller's frame, so the frame is returned with the
    ordering. *)
Definition re_order_images (argsort : list Q → list nat) (pol : na_policy)
  (root_directory : list string) (selected : sorting_option)
  (image_files : list string) (db : DataFrame)
  : result (list string * DataFrame) :=
  match selected with
  | SortUuid => Ok (sorted_jpgs root_directory, db)
  | PredictedBadFirst =>
      predicted ← get_column "predicted_label" predicted_label db;
      files_of_rows (series_argsort argsort pol predicted) db
  | PredictedGoodFirst =>
      predicted ← get_column "predicted_label" predicted_label db;
      files_of_rows (rev (series_argsort argsort pol predicted)) db
  | Middle =>
      predicted ← get_column "predicted_label" predicted_label db;
      let median := series_median predicted in
      let db' :=
        set_column "distance_from_median" set_distance_from_median
          (map (fun x => abs_diff x median) predicted) db in
      files_of_rows
        (series_argsort argsort pol (map distance_from_median (rows db')))
        db'
  end.

(** *** [create_backup] *)

(** The loop of [create_backup] over the paths listed by [glob]:
    [os.remove] for every path with [_db_backup_] in it, which raises when
    the path is a directory ([None]; how far the loop got then depends on the
    order of the listing). *)
Fixpoint remove_backups (files : list (string * bool))
  (fs : gmap string (list csv_line)) : option (gmap string (list csv_line)) :=
  match files with
  | [] => Some fs
  | (file, dir) :: rest =>
      if contains "_db_backup_" file
      then if dir then None else remove_backups rest (delete file fs)
      else remove_backups rest fs
  end.

Inductive Backup : Type :=
  | BackedUp (fs : gmap string (list csv_line))
  | CopyFailed (e : OSError) (fs : gmap string (list csv_line))
  | RemoveFailed.

(** The path of the new backup,
    [database_path.replace(".csv", f"_db_backup_{timestamp}.csv")]. *)
Definition new_backup_path (timestamp database_path : string) : string :=
  replace ".csv" ("_db_backup_" +:+ timestamp +:+ ".csv") database_path.

(** [create_backup(database_path)]; [timestamp] is
    [time.strftime("%Y%m%d-%H%M%S")]. *)
Definition create_backup (timestamp database_path : string)
  (fs : gmap string (list csv_line)) : Backup :=
  let folder := dirname database_path in
  let files := glob_star folder fs in
  match remove_backups files fs with
  | None => RemoveFailed
  | Some fs1 =>
      match shutil_copy database_path
              (new_backup_path timestamp database_path) fs1 with
      | inl e => CopyFailed e fs1
      | inr fs2 => BackedUp fs2
      end
  end.

(** *** The labelling session, [label_dataset] *)

Record Session : Type := mkSession {
  image_files : list string;
  current_index : Z;
  skip_labeled_files : bool;
  database : DataFrame;
  disk : gmap string (list csv_line)
}.

(** [(label is not None) and (not np.isnan(label))] on the result of
    [load]. *)
Definition is_labeled (label : option (option Q)) : bool :=
  match label with
  | Some (Some _) => true
  | _ => false
  end.

(** The number drawn on the image: the label when there is one, else
    [database.loc[database["uuid"] == uuid, "predicted_label"].values[0]].
    Reading, resizing and drawing the image itself are left out. *)
Definition overlay (u : string) (label : option (option Q)) (db : DataFrame)
  : result (option Q) :=
  if is_labeled label then Ok (default None label)
  else
    predicted ← get_column "predicted_label" predicted_label db;
    match loc_uuid u db with
    | r :: _ => Ok (predicted_label r)
    | [] => Raise IndexError
    end.

(** One pass through the top of the [while True] body, up to
    [cv2.waitKey(0)]. *)
Inductive Step : Type :=
  | Continue (s : Session)             (* the [continue] of the skip test *)
  | Show (u : string) (s : Session)    (* image [u] is on screen *)
  | Fail (e : PyError).

Definition loop_head (s : Session) : Step :=
  match py_index (image_files s) (current_index s) with
  | Raise e => Fail e
  | Ok u =>
      let label := load u (database s) in
      if is_labeled label && skip_labeled_files s
      then Continue (mkSession (image_files s) (current_index s + 1)
                               (skip_labeled_files s) (database s) (disk s))
      else
        match overlay u label (database s) with
        | Raise e => Fail e
        | Ok _ => Show u (mkSession (image_files s) (current_index s) false
                                    (database s) (disk s))
        end
  end.

(** The body from the key test to the wrap of the index, for the key
    returned by [cv2.waitKey(0)], pressed at time [now], while [u] is shown;
    [None] is the [break].  The backup that ends the body is
    [random_backup]. *)
Definition on_key (label_file : string) (key now : Z) (u : string)
  (s : Session) : option Session :=
  let wrap i := i mod Z.of_nat (length (image_files s)) in
  if bool_decide (48 ≤ key ≤ 57) then
    let label := ((key - 48) # 10)%Q in
    let db := relabel_image now u label (database s) in
    Some (mkSession (image_files s) (wrap (current_index s + 1))
                    (skip_labeled_files s) db (save label_file db (disk s)))
  else if bool_decide (key = 113 ∨ key = 27) then None
  else if bool_decide (key = 81) then
    Some (mkSession (image_files s) (wrap (current_index s - 1))
                    (skip_labeled_files s) (database s) (disk s))
  else if bool_decide (key = 83) then
    Some (mkSession (image_files s) (wrap (current_index s + 1))
                    (skip_labeled_files s) (database s) (disk s))
  else
    Some (mkSession (image_files s) (wrap (current_index s))
                    (skip_labeled_files s) (database s) (disk s)).

(** The end of the body, [if random.random() < 0.1:
    create_backup(label_file)].  [draw] is [None] when the number drawn is
    not below 0.1; otherwise it holds the time stamp that [create_backup]
    reads.  A backup that raises ends the session ([inl]). *)
Definition random_backup (label_file : string) (draw : option string)
  (s : Session) : Backup + Session :=
  match draw with
  | None => inr s
  | Some timestamp =>
      match create_backup timestamp label_file (disk s) with
      | BackedUp fs =>
          inr (mkSession (image_files s) (current_index s)
                         (skip_labeled_files s) (database s) fs)
      | failed => inl failed
      end
  end.

(** How a session ends: [q]/[esc], the labeller stops pressing keys while an
    image is shown, an exception of the loop itself, or one of the
    backup. *)
Inductive Ending : Type :=
  | Terminated
  | AwaitingKey
  | Died (e : PyError)
  | BackupFailed (b : Backup)
  | OutOfFuel.

Record Run : Type := mkRun {
  presented : list string;
  final : Session;
  ending : Ending
}.

(** The [while True] loop, driven by the keys pressed, each with the time of
    the press and the draw of the backup that follows it.  Every pass either
    skips an image or shows one and consumes a key.  When the backup raises,
    [final] is the session before it. *)
Fixpoint label_loop (label_file : string) (fuel : nat)
  (keys : list (Z * Z * option string)) (s : Session) : Run :=
  match fuel with
  | O => mkRun [] s OutOfFuel
  | S fuel' =>
      match loop_head s with
      | Fail e => mkRun [] s (Died e)
      | Continue s' => label_loop label_file fuel' keys s'
      | Show u s' =>
          match keys with
          | [] => mkRun [u] s' AwaitingKey
          | (key, now, draw) :: keys' =>
              match on_key label_file key now u s' with
              | None => mkRun [u] s' Terminated
              | Some s1 =>
                  match random_backup label_file draw s1 with
                  | inl failed => mkRun [u] s1 (BackupFailed failed)
                  | inr s2 =>
                      let r := label_loop label_file fuel' keys' s2 in
                      mkRun (u :: presented r) (final r) (ending r)
                  end
              end
          end
      end
  end.

(** Passes the loop can make: one per key and one more showing an image,
    and the skips, which only happen before the first image is shown. *)
Definition enough_fuel (image_files : list string)
  (keys : list (Z * Z * option string)) : nat :=
  length image_files + length keys + 2.

(** [label_dataset(root_directory, skip_labeled_files)]; [csv] is the frame
    read from the label file, or [empty_database] when there is none. *)
Definition label_dataset (argsort : list Q → list nat) (pol : na_policy)
  (root_directory : list string) (label_file : string) (csv : DataFrame)
  (fs : gmap string (list csv_line)) (selected : sorting_option)
  (keys : list (Z * Z * option string)) (skip_labeled_files : bool)
  : result Run :=
  let image_files := sorted_jpgs root_directory in
  let database := fix_database csv in
  planned ← re_order_images argsort pol root_directory selected image_files
              database;
  let '(image_files, database) := planned in
  Ok (label_loop label_file (enough_fuel image_files keys) keys
        (mkSession image_files 0 skip_labeled_files database fs)).

End LabelImages.

(** ** [05_predict_labels.py] *)

Module PredictLabels.

Definition batch_size : nat := 16.

Section Pass.

(** [model u] is the score the network gives to the stored features of
    image [u]; [clock t] is what the [t]-th reading of [int(time.time())]
    returns. *)
Variable model : string → Q.
Variable clock : nat → Z.

(** [predict(features, paths, uuids, database, row)], started at clock
    reading [t].  [row] is the caller's selection for the uuid it looked at
    last; the same [row] decides between insert and update for every uuid
    of the batch.  The random copy of the image to the output directory is
    left out. *)
Fixpoint predict (t : nat) (uuids : list string) (db : DataFrame)
  (row : list Row) : result DataFrame :=
  match uuids with
  | [] => Ok db
  | u :: rest =>
      let predicted_score := model u in
      let current_timestamp := clock t in
      db' ← match row with
            | [] =>
                Ok (concat_row ["uuid"; "timestamp"; "predicted_label"]
                      (mkRow u None (Some current_timestamp)
                             (Some predicted_score) None) db)
            | _ :: _ =>
                index_to_update ← first_index u db;
                Ok (loc_set index_to_update "timestamp"
                      (set_timestamp (Some current_timestamp))
                      (loc_set index_to_update "predicted_label"
                         (set_predicted_label (Some predicted_score)) db))
            end;
      predict (S t) rest db' row
  end.

(** The state of the module-level loop: the frame, the uuids collected for
    the next batch, the counter, the clock readings made so far and the
    file system. *)
Record Pass : Type := mkPass {
  database : DataFrame;
  uuids : list string;
  n_predictions : nat;
  ticks : nat;
  disk : gmap string (list csv_line)
}.

(** The [try] block: the label cell of the first selected row is read; an
    empty selection raises and is passed over. *)
Definition already_labeled (row : list Row) : bool :=
  match row with
  | r :: _ => present (label r)
  | [] => false
  end.

(** One iteration of [for uuid in tqdm(img_files)]. *)
Definition pass_step (label_file : string) (st : Pass) (u : string)
  : result Pass :=
  let row := loc_uuid u (database st) in
  if already_labeled row then Ok st
  else
    let uuids' := uuids st ++ [u] in
    st1 ← (if bool_decide (length uuids' = batch_size)
           then
             db ← predict (ticks st) uuids' (database st) row;
             Ok (mkPass db [] (n_predictions st + batch_size)
                        (ticks st + length uuids') (disk st))
           else
             Ok (mkPass (database st) uuids' (n_predictions st) (ticks st)
                        (disk st)));
    Ok (if bool_decide (n_predictions st1 `mod` 100 = 0)%nat
        then mkPass (database st1) (uuids st1) (n_predictions st1)
                    (ticks st1) (save label_file (database st1) (disk st1))
        else st1).

Fixpoint pass_loop (label_file : string) (img_files : list string)
  (st : Pass) : result Pass :=
  match img_files with
  | [] => Ok st
  | u :: rest =>
      st' ← pass_step label_file st u;
      pass_loop label_file rest st'
  end.

(** The module body from the load of the label file on; [csv] is the frame
    read from it, or [empty_database], [img_files] the uuids of the [*.jpg]
    files as [os.listdir] gives them. *)
Definition predict_labels (label_file : string) (csv : DataFrame)
  (fs : gmap string (list csv_line)) (img_files : list string)
  : result Pass :=
  let db :=
    if bool_decide ("predicted_label" ∈ columns csv) then csv
    else set_column "predicted_label" set_predicted_label
           (map (fun _ => None) (rows csv)) csv in
  st ← pass_loop label_file img_files (mkPass db [] 0 0 fs);
  Ok (mkPass (database st) (uuids st) (n_predictions st) (ticks st)
             (save label_file (database st) (disk st))).

End Pass.

End PredictLabels.

(** A [for] loop over a list, with a body that may raise. *)
Fixpoint for_each {M : Type → Type} `{!MBind M, !MRet M} {A S : Type}
  (body : S → A → M S) (s : S) (l : list A) : M S :=
  match l with
  | [] => mret s
  | x :: l' => s' ← body s x; for_each body s' l'
  end.


(** ** [_4_train_model.py] *)

Module TrainModel.

Inductive Exception : Type :=
  | ZeroDivisionError
  | ValueError
  | Py (e : PyError).

Inductive outcome (A : Type) : Type :=
  | Returns (a : A)
  | Raises (e : Exception).

Arguments Returns {A} a.
Arguments Raises {A} e.

#[global] Instance outcome_ret : MRet outcome := fun A a => Returns a.
#[global] Instance outcome_bind : MBind outcome := fun A B f m =>
  match m with
  | Returns a => f a
  | Raises e => Raises e
  end.

Definition lift {A : Type} (r : result A) : outcome A :=
  match r with
  | Ok a => Returns a
  | Raise e => Raises (Py e)
  end.

(** [a % b] on integers *)
Definition py_mod (a b : Z) : outcome Z :=
  if bool_decide (b = 0) then Raises ZeroDivisionError
  else Returns (a mod b).

(** [x / n] for a float [x] and an integer [n] *)
Definition py_div (x : Q) (n : nat) : outcome Q :=
  if bool_decide (n = 0%nat) then Raises ZeroDivisionError
  else Returns (x / inject_Z (Z.of_nat n))%Q.

(** [min(l)] *)
Definition py_min (l : list Q) : outcome Q :=
  match l with
  | [] => Raises ValueError
  | x :: l' => Returns (foldl (fun m y => if Qle_bool m y then m else y) x l')
  end.

(** The part of [train] that follows the construction of the network.  The
    optimisation is a parameter: [train_epoch] is one pass over
    [train_loader], from the model before it to the model after it and the
    sum of the losses of its batches, and [get_test_loss] is the function of
    that name.  [n_batches] is [len(train_loader)]. *)
Section Train.

Variable Model : Type.
Variable train_epoch : Model → Model * Q.
Variable get_test_loss : Model → Q.

(** The variables of [train] that the epochs change: the model, the two
    lists of [losses], [test_loss], and how often the curves were plotted. *)
Record Training : Type := mkTraining {
  net : Model;
  train_losses : list Q;
  test_losses : list Q;
  test_loss : Q;
  n_plots : nat
}.

(** [plot_losses(losses)], which draws a line at [min(losses[1])]. *)
Definition plot_losses (t : Training) : outcome Training :=
  _ ← py_min (test_losses t);
  Returns (mkTraining (net t) (train_losses t) (test_losses t) (test_loss t)
                      (S (n_plots t))).

(** The body of the loop over the epochs. *)
Definition epoch_body (n_epochs : Z) (n_batches : nat) (t : Training)
  (epoch : nat) : outcome Training :=
  let '(net1, total) := train_epoch (net t) in
  train_loss ← py_div total n_batches;
  let test_loss := get_test_loss net1 in
  let t1 := mkTraining net1 (train_losses t ++ [train_loss])
                       (test_losses t ++ [test_loss]) test_loss (n_plots t) in
  r ← py_mod (Z.of_nat epoch) (n_epochs / 10);
  if bool_decide (r = 0) then plot_losses t1 else Returns t1.

(** [train] from the first test loss on.  The result is the final state and,
    unless [dont_save] is set, the model that is saved with the test loss
    that goes into its file name. *)
Definition train (n_epochs : Z) (n_batches : nat) (dont_save : bool)
  (net0 : Model) : outcome (Training * option (Model * Q)) :=
  let t0 := mkTraining net0 [] [] (get_test_loss net0) 0 in
  t ← for_each (epoch_body n_epochs n_batches) t0 (seq 0 (Z.to_nat n_epochs));
  _ ← (if negb (Qle_bool (test_loss t) 0) then py_min (test_losses t)
       else Returns (test_loss t));
  t ← plot_losses t;
  if dont_save then Returns (t, None)
  else
    final ← lift (py_index (test_losses t) (-1));
    Returns (t, Some (net t, final)).

(** The models after each of the first [n] epochs, each with the summed
    loss of its epoch. *)
Fixpoint epochs (n : nat) (m : Model) : list (Model * Q) :=
  match n with
  | O => []
  | S k => train_epoch m :: epochs k (train_epoch m).1
  end.

End Train.

Arguments net {Model} t.
Arguments train_losses {Model} t.
Arguments test_losses {Model} t.
Arguments test_loss {Model} t.
Arguments n_plots {Model} t.
Arguments mkTraining {Model}.

End TrainModel.

(** ** [utils/nn_model.py] *)

Module NnModel.

(** The modules a [SimpleFC] is made of.  Sizes are natural numbers. *)
Inductive Layer : Type :=
  | Linear (in_features out_features : nat)
  | ReLU
  | Dropout (p : Q).

(** [nn.Dropout(p=p)], which raises [ValueError] unless 0 <= p <= 1. *)
Definition new_Dropout (p : Q) : TrainModel.outcome Layer :=
  if Qle_bool 0 p && Qle_bool p 1 then TrainModel.Returns (Dropout p)
  else TrainModel.Raises TrainModel.ValueError.

(** The body of the loop of [SimpleFC.__init__], for the index [i]. *)
Definition add_layer (layer_sizes : list nat) (dropout_prob : Q)
  (layers : list Layer) (i : nat) : TrainModel.outcome (list Layer) :=
  n_in ← TrainModel.lift (py_index layer_sizes (Z.of_nat i));
  n_out ← TrainModel.lift (py_index layer_sizes (Z.of_nat i + 1));
  let layers := layers ++ [Linear n_in n_out] in
  if bool_decide (Z.of_nat i < Z.of_nat (length layer_sizes) - 2)
  then
    let layers := layers ++ [ReLU] in
    dropout ← new_Dropout dropout_prob;
    TrainModel.Returns (layers ++ [dropout])
  else TrainModel.Returns layers.

(** [SimpleFC(input_size, hidden_sizes, output_size, dropout_prob=...)]: the
    list [self.layers]. *)
Definition SimpleFC (input_size : nat) (hidden_sizes : list nat)
  (output_size : nat) (dropout_prob : Q) : TrainModel.outcome (list Layer) :=
  let layer_sizes := [input_size] ++ hidden_sizes ++ [output_size] in
  for_each (add_layer layer_sizes dropout_prob) []
           (seq 0 (length layer_sizes - 1)%nat).

(** What a layer makes of an input whose last dimension has size [n]: the
    size of the last dimension of its output.  A [Linear] layer raises for
    another size than its [in_features] ([None]); the other layers work
    element by element. *)
Definition layer_size (layer : Layer) (n : nat) : option nat :=
  match layer with
  | Linear n_in n_out => if bool_decide (n = n_in) then Some n_out else None
  | ReLU | Dropout _ => Some n
  end.

(** [SimpleFC.forward], on the size of the last dimension. *)
Definition forward (layers : list Layer) (n : nat) : option nat :=
  foldl (fun x layer => x ≫= layer_size layer) (Some n) layers.

End NnModel.

Import LabelImages.

(** ** Vocabulary of the properties *)

(** The cells of a column that the frame does not have are missing. *)
Definition well_formed (db : DataFrame) : Prop :=
  "predicted_label" ∉ columns db →
  ∀ r, r ∈ rows db → predicted_label r = None.

(** Back-fill: a present label is mirrored in [predicted_label]. *)
Definition backfill_invariant (db : DataFrame) : Prop :=
  ∀ r, r ∈ rows db → present (label r) = true → predicted_label r = label r.

(** The stores the two programs can produce, starting without a label
    file. *)
Inductive reachable : DataFrame → Prop :=
  | reach_empty : reachable empty_database
  | reach_fix db : reachable db → reachable (fix_database db)
  | reach_relabel now u l db :
      reachable db → reachable (relabel_image now u l db)
  | reach_predict model clock label_file fs img_files db st :
      reachable db →
      PredictLabels.predict_labels model clock label_file db fs img_files
        = Ok st →
      reachable (PredictLabels.database st).

(** The stores in which no label was entered since the last
    [fix_database]. *)
Inductive backfilled : DataFrame → Prop :=
  | backfilled_fix db : well_formed db → backfilled (fix_database db)
  | backfilled_predict model clock label_file fs img_files db st :
      backfilled db →
      PredictLabels.predict_labels model clock label_file db fs img_files
        = Ok st →
      backfilled (PredictLabels.database st).

(** What happens to the rows of [before] on the way to [after]: every row
    keeps its place, its uuid and its label, a labelled row also keeps its
    [predicted_label], and the rows added have no label. *)
Definition row_kept (r0 r : Row) : Prop :=
  uuid r = uuid r0 ∧ label r = label r0 ∧
  (present (label r0) = true → predicted_label r = predicted_label r0).

Definition evolves (before after : DataFrame) : Prop :=
  ∃ kept added,
    rows after = kept ++ added ∧
    Forall2 row_kept (rows before) kept ∧
    Forall (fun r => label r = None) added.

(** The uuids collected for a batch were let through by the label test. *)
Definition unlabeled (db : DataFrame) (us : list string) : Prop :=
  Forall (fun u => PredictLabels.already_labeled (loc_uuid u db) = false) us.

(** What every iteration of the module-level loop of the prediction pass
    maintains with respect to the frame [db0] the pass started from. *)
Definition pass_inv (db0 : DataFrame) (st : PredictLabels.Pass) : Prop :=
  evolves db0 (PredictLabels.database st) ∧
  unlabeled (PredictLabels.database st) (PredictLabels.uuids st).

(** The row that [fix_database] makes of a row. *)
Definition backfill_row (r : Row) : Row :=
  if present (label r) then set_predicted_label (label r) r else r.

(** What [relabel] is said to do: the store then holds a record of the id
    with the label, the same value as [predicted_label], and the call time. *)
Definition relabel_mirrors_label (now : Z) (u : string) (l : Q)
  (db : DataFrame) : Prop :=
  ∃ r, r ∈ rows (relabel_image now u l db) ∧ uuid r = u ∧
       label r = Some l ∧ predicted_label r = Some l ∧
       timestamp r = Some now.


(** The sort key of a float cell, and the rows that have one. *)
Definition key_of (cell : Row → option Q) (r : Row) : Q :=
  default 0%Q (cell r).

Definition has (cell : Row → option Q) (r : Row) : Prop :=
  present (cell r) = true.

Definition lacks (cell : Row → option Q) (r : Row) : Prop :=
  present (cell r) = false.

#[global] Instance has_dec cell r : Decision (has cell r) :=
  decide (present (cell r) = true).

#[global] Instance lacks_dec cell r : Decision (lacks cell r) :=
  decide (present (cell r) = false).

(** The double a present cell stands for: what [argsort] compares. *)
Definition float_key (cell : Row → option Q) (r : Row) : Q :=
  float64 (key_of cell r).

(** [ordered] holds the members of [l] in ascending order of their key. *)
Definition sorted_by {A : Type} (key : A → Q) (l ordered : list A) : Prop :=
  ordered ≡ₚ l ∧
  StronglySorted (fun a b => (key a <= key b)%Q) ordered.

(** The rows of the frame after the "middle" branch has written the
    [distance_from_median] column. *)
Definition with_distance (db : DataFrame) : list Row :=
  map (fun r =>
         set_distance_from_median
           (abs_diff (predicted_label r)
                     (series_median (map predicted_label (rows db)))) r)
      (rows db).

(** The files that [create_backup] removes: those listed for the folder of
    the label file that have [_db_backup_] in their path. *)
Definition old_backup (folder key : string) : bool :=
  match listed folder key with
  | Some (_, false) => contains "_db_backup_" key
  | _ => false
  end.

(** The folders for which the listing is the one [glob] gives: no wildcard
    character and no slash at the end. *)
Definition plain_folder (folder : string) : Prop :=
  has_magic folder = false ∧
  match rev (String.list_ascii_of_string folder) with
  | c :: _ => is_slash c = false
  | [] => True
  end.

(** The hidden part of a network: for every hidden size a [Linear] layer
    from the size before it, a [ReLU] and a [Dropout]. *)
Fixpoint hidden_blocks (p : Q) (n_in : nat) (hidden : list nat)
  : list NnModel.Layer :=
  match hidden with
  | [] => []
  | h :: rest =>
      [NnModel.Linear n_in h; NnModel.ReLU; NnModel.Dropout p]
        ++ hidden_blocks p h rest
  end.

(** A path that ends in a name, not in a slash, and a name that has no
    slash in it. *)
Definition ends_in_name (folder : string) : Prop :=
  match rev (String.list_ascii_of_string folder) with
  | c :: _ => is_slash c = false
  | [] => False
  end.

Definition no_slash (name : string) : Prop :=
  forallb (fun c => negb (is_slash c)) (String.list_ascii_of_string name)
  = true.

(** ** Stores and runs used as examples *)

(** [q n] is the score n/10. *)
Definition q (n : Z) : Q := (n # 10)%Q.

Definition scored (u : string) (p : option Q) : Row :=
  mkRow u None (Some 0) p None.

Definition all_columns : list string :=
  ["uuid"; "label"; "timestamp"; "predicted_label"].

(** Records [{a: 0.9, b: 0.1, c: unset}]. *)
Definition store_abc : DataFrame :=
  mkDataFrame all_columns
    [scored "a" (Some (q 9)); scored "b" (Some (q 1)); scored "c" None].

(** Predicted labels [{a: 0.1, b: 0.5, c: 0.9}], and the same records with
    the rows in the opposite order. *)
Definition store_median : DataFrame :=
  mkDataFrame all_columns
    [scored "a" (Some (q 1)); scored "b" (Some (q 5)); scored "c" (Some (q 9))].


(** A record without a prediction stored first. *)
Definition store_unset_first : DataFrame :=
  mkDataFrame all_columns
    [scored "a" None; scored "b" (Some (q 1)); scored "c" (Some (q 9))].

(** Image [a] is scored, image [b] carries the label 0.5. *)
Definition store_ab : DataFrame :=
  mkDataFrame all_columns
    [scored "a" (Some (q 2));
     mkRow "b" (Some (q 5)) (Some 0) (Some (q 5)) None].

(** Sixteen images, the first of which has a row without a label. *)
Definition sixteen : list string :=
  ["img00"; "img01"; "img02"; "img03"; "img04"; "img05"; "img06"; "img07";
   "img08"; "img09"; "img10"; "img11"; "img12"; "img13"; "img14"; "img15"].

Definition store_img00 : DataFrame :=
  mkDataFrame all_columns [scored "img00" (Some (q 3))].

(** A label file with the three records of [store_abc] in it. *)
Definition disk_abc : gmap string (list csv_line) :=
  {[ "labels.csv" := csv_lines store_abc ]}.

(** A dataset folder with the label file, an older backup of it, the image
    directory and a file of another dataset. *)
Definition disk_backup : gmap string (list csv_line) :=
  {[ "/d/mj.csv" := csv_lines store_abc;
     "/d/mj_db_backup_20230401-120000.csv" := csv_lines store_ab;
     "/d/mj/a.jpg" := [];
     "/d/other.csv" := csv_lines store_ab ]}.

(** The same for a dataset that has [_db_backup_] in its name. *)
Definition disk_marked : gmap string (list csv_line) :=
  {[ "/d/old_db_backup_set.csv" := csv_lines store_abc;
     "/d/other.csv" := csv_lines store_ab ]}.

(** A model that scores every image 0.5 and a clock that stands still. *)
Definition half (_ : string) : Q := q 5.
Definition noon (_ : nat) : Z := 1700000000.

(** A training whose model is the number of epochs it has seen, with a
    summed loss of 3 per epoch and a test loss of 0.5. *)
Definition count_epoch (m : nat) : nat * Q := (S m, 3%Q).
Definition flat_loss (_ : nat) : Q := q 5.

(** * Properties *)

(** ** Columns and row updates *)

Lemma add_column_idem c cols :
  add_column c (add_column c cols) = add_column c cols.
Proof.
  destruct (decide (c ∈ cols)) as [Hin|Hin].
  - unfold add_column. by rewrite !(bool_decide_eq_true_2 _ Hin).
  - unfold add_column. rewrite (bool_decide_eq_false_2 _ Hin).
    rewrite bool_decide_eq_true_2; [done|].
    apply elem_of_app. right. by apply list_elem_of_singleton.
Qed.

Lemma add_column_elem c cols : c ∈ add_column c cols.
Proof.
  unfold add_column. case_bool_decide; [done|].
  apply elem_of_app. right. by apply list_elem_of_singleton.
Qed.

Lemma add_column_mono c d cols : d ∈ cols → d ∈ add_column c cols.
Proof.
  intros Hd. unfold add_column. case_bool_decide; [done|].
  apply elem_of_app. by left.
Qed.

Lemma alter_middle {A} (f : A → A) (pre : list A) x todo :
  alter f (length pre) (pre ++ x :: todo) = pre ++ f x :: todo.
Proof.
  induction pre as [|y pre IH]; simpl; [done|]. f_equal. exact IH.
Qed.

(** ** [fix_database] as a map over the rows *)

Lemma backfill_row_idem r : backfill_row (backfill_row r) = backfill_row r.
Proof. unfold backfill_row. destruct r as [u [l|] t p d]; reflexivity. Qed.

Lemma backfill_row_label r : label (backfill_row r) = label r.
Proof. unfold backfill_row. destruct r as [u [l|] t p d]; reflexivity. Qed.

Lemma fix_database_step_eq pre r todo cols :
  fix_database_step (mkDataFrame cols (pre ++ r :: todo)) (length pre, r)
  = mkDataFrame
      (if present (label r) then add_column "predicted_label" cols else cols)
      ((pre ++ [backfill_row r]) ++ todo).
Proof.
  unfold fix_database_step, backfill_row, loc_set. cbn [rows columns].
  rewrite <- app_assoc. cbn [app].
  destruct (present (label r)); [|done]. by rewrite alter_middle.
Qed.

Lemma fix_database_loop todo : ∀ pre cols,
  foldl fix_database_step (mkDataFrame cols (pre ++ todo))
        (imap (fun i r => ((length pre + i)%nat, r)) todo)
  = mkDataFrame
      (if existsb (fun r => present (label r)) todo
       then add_column "predicted_label" cols else cols)
      (pre ++ map backfill_row todo).
Proof.
  induction todo as [|r todo IH]; intros pre cols; [done|].
  cbn [imap foldl]. rewrite Nat.add_0_r, fix_database_step_eq.
  rewrite (imap_ext _ (fun i r0 =>
             ((length (pre ++ [backfill_row r]) + i)%nat, r0)) todo).
  2:{ intros i x _. simpl. rewrite length_app. simpl. f_equal. lia. }
  rewrite IH, <- app_assoc. cbn [app existsb map]. f_equal.
  destruct (present (label r)), (existsb _ todo); cbn [orb];
    auto using add_column_idem.
Qed.

Lemma fix_database_map db :
  fix_database db
  = mkDataFrame
      (if existsb (fun r => present (label r)) (rows db)
       then add_column "predicted_label" (columns db) else columns db)
      (map backfill_row (rows db)).
Proof.
  unfold fix_database, iterrows.
  pose proof (fix_database_loop (rows db) [] (columns db)) as H.
  cbn [app length Nat.add] in H. destruct db as [cols rs]. exact H.
Qed.

Lemma existsb_backfill rs :
  existsb (fun r => present (label r)) (map backfill_row rs)
  = existsb (fun r => present (label r)) rs.
Proof.
  induction rs as [|r rs IH]; [done|]. cbn [map existsb].
  by rewrite backfill_row_label, IH.
Qed.

(** C9.  [fix_database] is idempotent: applied to its own result it returns
    that result, rows and columns alike. *)
Theorem fix_database_idempotent (db : DataFrame) :
  fix_database (fix_database db) = fix_database db.
Proof.
  rewrite (fix_database_map (fix_database db)), (fix_database_map db).
  cbn [rows columns]. rewrite existsb_backfill. f_equal.
  - destruct (existsb _ (rows db)); [apply add_column_idem | done].
  - rewrite map_map. apply map_ext. intros r. apply backfill_row_idem.
Qed.

(** ** [relabel_image] *)

Lemma loc_uuid_find u rs :
  match list_find (fun r => uuid r = u) rs with
  | None => filter (fun r => uuid r = u) rs = []
  | Some (i, r) =>
      rs !! i = Some r ∧ uuid r = u ∧
      ∃ tl, filter (fun r => uuid r = u) rs = r :: tl
  end.
Proof.
  induction rs as [|x rs IH]; [done|].
  cbn [list_find]. destruct (decide (uuid x = u)) as [Hx|Hx].
  - rewrite filter_cons_True by done. eauto.
  - rewrite filter_cons_False by done.
    destruct (list_find _ rs) as [[i r]|]; simpl; [|done].
    destruct IH as (? & ? & ?). eauto.
Qed.

Lemma alter_alter_insert {A} (f g : A → A) i (l : list A) x :
  l !! i = Some x → alter g i (alter f i l) = <[i := g (f x)]> l.
Proof.
  revert i. induction l as [|y l IH]; intros [|i] Hi; try done.
  - simpl in *. by simplify_eq.
  - simpl in *. f_equal. by apply IH.
Qed.

(** C2 (amended).  [relabel_image] writes the label and the call time and
    nothing else: on an id without a row it appends the record
    (id, label, call time) with no [predicted_label]; otherwise it overwrites
    [label] and [timestamp] in the first row of the id and leaves that row's
    [predicted_label], and every other row, as they were. *)
Theorem relabel_image_rows (now : Z) (u : string) (l : Q) (db : DataFrame) :
  rows (relabel_image now u l db)
  = match list_find (fun r => uuid r = u) (rows db) with
    | None => rows db ++ [mkRow u (Some l) (Some now) None None]
    | Some (i, r) =>
        <[i := mkRow u (Some l) (Some now) (predicted_label r)
                     (distance_from_median r)]> (rows db)
    end.
Proof.
  unfold relabel_image, loc_uuid.
  pose proof (loc_uuid_find u (rows db)) as H.
  destruct (list_find _ (rows db)) as [[i r]|].
  - destruct H as (Hi & Hu & tl & ->). unfold loc_set. cbn [rows].
    rewrite (alter_alter_insert _ _ _ _ r Hi). by rewrite <- Hu.
  - by rewrite H.
Qed.

(** C2, as stated, fails: after a relabel of an id without a row, and after
    a relabel of an id whose row holds a prediction, no record of the id
    carries the label as its [predicted_label]. *)
Lemma relabel_image_leaves_prediction :
  ¬ relabel_mirrors_label 1700000000 "a" (q 7) empty_database ∧
  ¬ relabel_mirrors_label 1700000000 "a" (q 7) store_abc.
Proof.
  split; intros (r & Hr & _ & _ & Hp & _); vm_compute in Hr;
    repeat (apply elem_of_cons in Hr as [->|Hr]; [discriminate Hp|]);
    by apply elem_of_nil in Hr.
Qed.

(** ** How the prediction pass changes a store *)

Lemma row_kept_refl r : row_kept r r.
Proof. by repeat split. Qed.

Lemma row_kept_trans r0 r1 r2 :
  row_kept r0 r1 → row_kept r1 r2 → row_kept r0 r2.
Proof.
  intros (Hu1 & Hl1 & Hp1) (Hu2 & Hl2 & Hp2). repeat split; try congruence.
  intros H. rewrite Hp2, Hp1; [done..|]. by rewrite Hl1.
Qed.

Lemma rows_kept_refl rs : Forall2 row_kept rs rs.
Proof. induction rs; constructor; auto using row_kept_refl. Qed.

Lemma rows_kept_trans rs0 : ∀ rs1 rs2,
  Forall2 row_kept rs0 rs1 → Forall2 row_kept rs1 rs2 →
  Forall2 row_kept rs0 rs2.
Proof.
  induction rs0 as [|r rs0 IH]; intros rs1 rs2 H1 H2.
  - inversion H1; subst. inversion H2; subst. constructor.
  - inversion H1 as [|? r1 ? rs1' Hr1 Hrs1]; subst.
    inversion H2 as [|? r2 ? rs2' Hr2 Hrs2]; subst.
    constructor; eauto using row_kept_trans.
Qed.

Lemma evolves_refl db : evolves db db.
Proof.
  exists (rows db), []. rewrite app_nil_r.
  split_and!; [done | apply rows_kept_refl | constructor].
Qed.

Lemma evolves_trans db0 db1 db2 :
  evolves db0 db1 → evolves db1 db2 → evolves db0 db2.
Proof.
  intros (k1 & a1 & E1 & F1 & N1) (k2 & a2 & E2 & F2 & N2).
  rewrite E1 in F2. apply Forall2_app_inv_l in F2 as (k2a & k2b & Fa & Fb & ->).
  exists k2a, (k2b ++ a2). split_and!.
  - by rewrite E2, app_assoc.
  - eapply rows_kept_trans; eauto.
  - apply Forall_app. split; [|done].
    eapply Forall2_Forall_r; [exact Fb|].
    eapply Forall_impl; [exact N1|]. intros r Hr r' (_ & Hl & _). congruence.
Qed.

(** Appending a record without a label. *)
Lemma evolves_concat_row cs r db :
  label r = None → evolves db (concat_row cs r db).
Proof.
  intros Hr. exists (rows db), [r].
  split_and!; [done | apply rows_kept_refl | by constructor].
Qed.

(** Rewriting one row in place. *)
Lemma evolves_loc_set i c f db :
  (∀ r, rows db !! i = Some r → row_kept r (f r)) →
  evolves db (loc_set i c f db).
Proof.
  intros Hf. exists (alter f i (rows db)), []. rewrite app_nil_r.
  split_and!; [done| |constructor].
  apply Forall2_alter_r; [apply rows_kept_refl|].
  intros x y Hx Hy _. simplify_eq. by apply Hf.
Qed.

Lemma row_kept_set_timestamp t r : row_kept r (set_timestamp t r).
Proof. by repeat split. Qed.

Lemma row_kept_set_predicted_label p r :
  present (label r) = false → row_kept r (set_predicted_label p r).
Proof. intros H. repeat split. simpl. congruence. Qed.

(** The label test of the pass looks at the first row of the uuid; it gives
    the same answer after the store has evolved. *)
Lemma already_labeled_kept u rs : ∀ kept,
  Forall2 row_kept rs kept →
  (filter (fun r => uuid r = u) rs = [] ↔
   filter (fun r => uuid r = u) kept = []) ∧
  PredictLabels.already_labeled (filter (fun r => uuid r = u) kept)
  = PredictLabels.already_labeled (filter (fun r => uuid r = u) rs).
Proof.
  induction rs as [|r rs IH]; intros kept H; inversion H as [|? r' ? kept' Hr Hk];
    subst; [done|].
  destruct Hr as (Hu & Hl & _). destruct (IH _ Hk) as [IH1 IH2].
  destruct (decide (uuid r = u)) as [Hru|Hru].
  - rewrite !filter_cons_True by congruence. simpl. by rewrite Hl.
  - rewrite !filter_cons_False by congruence. done.
Qed.

Lemma already_labeled_evolves u db db' :
  evolves db db' →
  PredictLabels.already_labeled (loc_uuid u db) = false →
  PredictLabels.already_labeled (loc_uuid u db') = false.
Proof.
  intros (kept & added & E & F & N) H. unfold loc_uuid in *.
  rewrite E, filter_app.
  destruct (already_labeled_kept u _ _ F) as [Hnil Hsame].
  destruct (filter (fun r => uuid r = u) kept) as [|r tl] eqn:Hk.
  - simpl. clear -N. induction added as [|a added IH]; [done|].
    inversion N as [|? ? Ha N']; subst.
    destruct (decide (uuid a = u)).
    + rewrite filter_cons_True by done. simpl. by rewrite Ha.
    + rewrite filter_cons_False by done. auto.
  - simpl. simpl in Hsame. by rewrite Hsame.
Qed.

Section PassProperties.

Variable model : string → Q.
Variable clock : nat → Z.

Lemma unlabeled_evolves db db' us :
  evolves db db' → unlabeled db us → unlabeled db' us.
Proof.
  intros He Hus. unfold unlabeled. eapply Forall_impl; [exact Hus|].
  intros u. by apply already_labeled_evolves.
Qed.

Lemma predict_evolves us : ∀ t db row db',
  unlabeled db us →
  PredictLabels.predict model clock t us db row = Ok db' →
  evolves db db'.
Proof.
  induction us as [|u us IH]; intros t db row db' Hus Hrun.
  - simpl in Hrun. injection Hrun as <-. apply evolves_refl.
  - inversion Hus as [|? ? Hu Hrest]; subst. cbn [PredictLabels.predict] in Hrun.
    destruct row as [|r0 row0].
    + cbn [mbind result_bind] in Hrun.
      eassert (evolves db _) as Hstep
        by (apply (evolves_concat_row
                     ["uuid"; "timestamp"; "predicted_label"]
                     (mkRow u None (Some (clock t)) (Some (model u)) None));
            reflexivity).
      eapply evolves_trans; [exact Hstep|].
      eapply IH; [|exact Hrun]. eapply unlabeled_evolves; eauto.
    + unfold first_index in Hrun.
      pose proof (loc_uuid_find u (rows db)) as Hfind.
      destruct (list_find _ (rows db)) as [[i r]|];
        cbn [mbind result_bind] in Hrun; [|discriminate].
      destruct Hfind as (Hi & _ & tl & Htl).
      unfold loc_uuid in Hu. rewrite Htl in Hu. simpl in Hu.
      set (db1 := loc_set i "predicted_label"
                    (set_predicted_label (Some (model u))) db) in *.
      assert (evolves db db1) as H1.
      { apply evolves_loc_set. intros r' Hr'. simplify_eq.
        by apply row_kept_set_predicted_label. }
      assert (evolves db1 (loc_set i "timestamp"
                             (set_timestamp (Some (clock t))) db1)) as H2.
      { apply evolves_loc_set. intros r' _. apply row_kept_set_timestamp. }
      pose proof (evolves_trans _ _ _ H1 H2) as H12.
      eapply evolves_trans; [exact H12|].
      eapply IH; [|exact Hrun]. eapply unlabeled_evolves; eauto.
Qed.

Lemma pass_step_inv label_file db0 st u st' :
  pass_inv db0 st →
  PredictLabels.pass_step model clock label_file st u = Ok st' →
  pass_inv db0 st'.
Proof.
  intros [Hev Hun] Hstep. unfold PredictLabels.pass_step in Hstep.
  destruct (PredictLabels.already_labeled _) eqn:Hlab.
  { injection Hstep as <-. by split. }
  assert (unlabeled (PredictLabels.database st)
            (PredictLabels.uuids st ++ [u])) as Hun'.
  { apply Forall_app. split; [done|]. by constructor. }
  case_bool_decide as Hfull.
  - destruct (PredictLabels.predict _ _ _ _ _ _) as [db|e] eqn:Hpred;
      cbn [mbind result_bind] in Hstep; [|discriminate].
    apply predict_evolves in Hpred; [|done].
    injection Hstep as <-.
    case_bool_decide; (split; [by eapply evolves_trans | constructor]).
  - cbn [mbind result_bind] in Hstep. injection Hstep as <-.
    by case_bool_decide.
Qed.

Lemma pass_loop_inv label_file db0 img_files : ∀ st st',
  pass_inv db0 st →
  PredictLabels.pass_loop model clock label_file img_files st = Ok st' →
  pass_inv db0 st'.
Proof.
  induction img_files as [|u rest IH]; intros st st' Hinv Hrun.
  - simpl in Hrun. by injection Hrun as <-.
  - cbn [PredictLabels.pass_loop] in Hrun.
    destruct (PredictLabels.pass_step _ _ _ _ _) as [st1|e] eqn:Hstep;
      cbn [mbind result_bind] in Hrun; [|discriminate].
    eapply IH; [|exact Hrun]. by eapply pass_step_inv.
Qed.

Lemma zip_with_const_map {A B C} (f : A → B → C) (a : A) (l : list B) :
  zip_with f (map (fun _ => a) l) l = map (f a) l.
Proof. induction l; simpl; by f_equal. Qed.

Lemma predict_labels_evolves label_file csv fs img_files st :
  well_formed csv →
  PredictLabels.predict_labels model clock label_file csv fs img_files
    = Ok st →
  evolves csv (PredictLabels.database st).
Proof.
  intros Hwf Hrun. unfold PredictLabels.predict_labels in Hrun.
  destruct (PredictLabels.pass_loop _ _ _ _ _) as [st1|e] eqn:Hloop;
    cbn [mbind result_bind] in Hrun; [|discriminate].
  injection Hrun as <-. cbn [PredictLabels.database].
  eapply pass_loop_inv in Hloop as [Hev _]; [exact Hev|].
  split; [|constructor]. cbn [PredictLabels.database].
  case_bool_decide as Hcol; [apply evolves_refl|].
  exists (rows csv), []. rewrite app_nil_r. split_and!; [|apply rows_kept_refl|constructor].
  unfold set_column. cbn [rows]. rewrite zip_with_const_map.
  rewrite <- (map_id (rows csv)) at 2. apply map_ext_in.
  intros r Hr. apply list_elem_of_In in Hr.
  specialize (Hwf Hcol r Hr). destruct r; simpl in *. by subst.
Qed.

End PassProperties.

(** C8.  A prediction pass that runs to its end leaves every row of the
    store it was given in place, with its uuid and its label, and it leaves
    the [predicted_label] of every row that has a label as it was. *)
Theorem predict_labels_frame (model : string → Q) (clock : nat → Z)
  (label_file : string) (csv : DataFrame) (fs : gmap string (list csv_line))
  (img_files : list string) (st : PredictLabels.Pass) :
  well_formed csv →
  PredictLabels.predict_labels model clock label_file csv fs img_files
    = Ok st →
  ∀ i r, rows csv !! i = Some r →
    ∃ r', rows (PredictLabels.database st) !! i = Some r' ∧
          uuid r' = uuid r ∧ label r' = label r ∧
          (present (label r) = true → predicted_label r' = predicted_label r).
Proof.
  intros Hwf Hrun i r Hi.
  destruct (predict_labels_evolves _ _ _ _ _ _ _ Hwf Hrun)
    as (kept & added & E & F & _).
  destruct (Forall2_lookup_l _ _ _ _ _ F Hi) as (r' & Hr' & Hkept).
  exists r'. split; [|exact Hkept].
  rewrite E. by apply lookup_app_l_Some.
Qed.

(** ** The [predicted_label] column *)

Lemma loc_set_columns i c f db d :
  d ∈ columns db → d ∈ columns (loc_set i c f db).
Proof. apply add_column_mono. Qed.

Lemma concat_row_columns cs r db d :
  d ∈ columns db → d ∈ columns (concat_row cs r db).
Proof.
  unfold concat_row. cbn [columns]. generalize (columns db).
  induction cs as [|c cs IH]; intros cols Hd; [done|].
  simpl. apply IH. by apply add_column_mono.
Qed.

Lemma predict_columns model clock d us : ∀ t db row db',
  d ∈ columns db →
  PredictLabels.predict model clock t us db row = Ok db' →
  d ∈ columns db'.
Proof.
  induction us as [|u us IH]; intros t db row db' Hd Hrun.
  - simpl in Hrun. by injection Hrun as <-.
  - cbn [PredictLabels.predict] in Hrun. destruct row as [|r0 row0].
    + cbn [mbind result_bind] in Hrun. eapply IH; [|exact Hrun].
      by apply concat_row_columns.
    + destruct (first_index u db) as [i|e];
        cbn [mbind result_bind] in Hrun; [|discriminate].
      eapply IH; [|exact Hrun]. by do 2 apply loc_set_columns.
Qed.

Lemma pass_step_columns model clock label_file d st u st' :
  d ∈ columns (PredictLabels.database st) →
  PredictLabels.pass_step model clock label_file st u = Ok st' →
  d ∈ columns (PredictLabels.database st').
Proof.
  intros Hd Hstep. unfold PredictLabels.pass_step in Hstep.
  destruct (PredictLabels.already_labeled _).
  { by injection Hstep as <-. }
  case_bool_decide.
  - destruct (PredictLabels.predict _ _ _ _ _ _) as [db|e] eqn:Hpred;
      cbn [mbind result_bind] in Hstep; [|discriminate].
    injection Hstep as <-. apply predict_columns with (d := d) in Hpred; [|done].
    by case_bool_decide.
  - cbn [mbind result_bind] in Hstep. injection Hstep as <-.
    by case_bool_decide.
Qed.

Lemma pass_loop_columns model clock label_file d img_files : ∀ st st',
  d ∈ columns (PredictLabels.database st) →
  PredictLabels.pass_loop model clock label_file img_files st = Ok st' →
  d ∈ columns (PredictLabels.database st').
Proof.
  induction img_files as [|u rest IH]; intros st st' Hd Hrun.
  - simpl in Hrun. by injection Hrun as <-.
  - cbn [PredictLabels.pass_loop] in Hrun.
    destruct (PredictLabels.pass_step _ _ _ _ _) as [st1|e] eqn:Hstep;
      cbn [mbind result_bind] in Hrun; [|discriminate].
    eapply IH; [|exact Hrun]. by eapply pass_step_columns.
Qed.

Lemma predict_labels_columns model clock label_file csv fs img_files st :
  PredictLabels.predict_labels model clock label_file csv fs img_files
    = Ok st →
  "predicted_label" ∈ columns (PredictLabels.database st).
Proof.
  intros Hrun. unfold PredictLabels.predict_labels in Hrun.
  destruct (PredictLabels.pass_loop _ _ _ _ _) as [st1|e] eqn:Hloop;
    cbn [mbind result_bind] in Hrun; [|discriminate].
  injection Hrun as <-. cbn [PredictLabels.database].
  eapply pass_loop_columns; [|exact Hloop]. cbn [PredictLabels.database].
  case_bool_decide; [done|]. apply add_column_elem.
Qed.

Lemma well_formed_column db :
  "predicted_label" ∈ columns db → well_formed db.
Proof. intros Hin Hout. by destruct Hout. Qed.

Lemma fix_database_well_formed db :
  well_formed db → well_formed (fix_database db).
Proof.
  intros Hwf. rewrite fix_database_map. intros Hcol r Hr. cbn [columns rows] in *.
  destruct (existsb _ (rows db)) eqn:Hany.
  { destruct Hcol. apply add_column_elem. }
  apply list_elem_of_fmap in Hr as (r0 & -> & Hr0).
  assert (present (label r0) = false) as Hl.
  { destruct (present (label r0)) eqn:Hp; [|done].
    rewrite <- Hany. symmetry. apply existsb_exists. exists r0.
    split; [by apply list_elem_of_In|done]. }
  unfold backfill_row. rewrite Hl. by apply Hwf.
Qed.

Lemma relabel_image_well_formed now u l db :
  well_formed db → well_formed (relabel_image now u l db).
Proof.
  intros Hwf Hcol. apply Forall_forall. unfold relabel_image in *.
  destruct (loc_uuid u db) as [|r0 tl].
  - assert ("predicted_label" ∉ columns db) as Hdb.
    { intros Hin. apply Hcol. by apply concat_row_columns. }
    cbn [rows concat_row]. apply Forall_app. split.
    + apply Forall_forall. by apply Hwf.
    + by repeat constructor.
  - destruct (list_find _ (rows db)) as [[i r]|].
    + assert ("predicted_label" ∉ columns db) as Hdb.
      { intros Hin. apply Hcol. by do 2 apply loc_set_columns. }
      cbn [rows loc_set]. do 2 (apply Forall_alter; [|by intros []]).
      apply Forall_forall. by apply Hwf.
    + apply Forall_forall. by apply Hwf.
Qed.

(** Every store the two programs can produce is well formed. *)
Lemma reachable_well_formed db : reachable db → well_formed db.
Proof.
  induction 1 as [|db _ IH|now u l db _ IH
                  |model clock label_file fs img_files db st _ _ Hrun].
  - intros _ r Hr. by apply elem_of_nil in Hr.
  - by apply fix_database_well_formed.
  - by apply relabel_image_well_formed.
  - eapply well_formed_column, predict_labels_columns, Hrun.
Qed.

(** ** The back-fill invariant *)

Lemma fix_database_backfills db : backfill_invariant (fix_database db).
Proof.
  rewrite fix_database_map. intros r Hr Hl. cbn [rows] in Hr.
  apply list_elem_of_fmap in Hr as (r0 & -> & _).
  rewrite backfill_row_label in *. unfold backfill_row. by rewrite Hl.
Qed.

Lemma evolves_backfill db db' :
  evolves db db' → backfill_invariant db → backfill_invariant db'.
Proof.
  intros (kept & added & E & F & N) Hinv r Hr Hl. rewrite E in Hr.
  apply elem_of_app in Hr as [Hr|Hr].
  - apply list_elem_of_lookup in Hr as [i Hi].
    destruct (Forall2_lookup_r _ _ _ _ _ F Hi) as (r0 & Hi0 & Hu & Hl0 & Hp).
    rewrite Hl0 in Hl. rewrite Hp, Hl0 by done.
    apply Hinv; [|done]. apply list_elem_of_lookup. eauto.
  - rewrite Forall_forall in N. by rewrite (N r) in Hl.
Qed.

Lemma backfilled_well_formed db : backfilled db → well_formed db.
Proof.
  induction 1 as [db Hwf|model clock label_file fs img_files db st _ _ Hrun].
  - by apply fix_database_well_formed.
  - eapply well_formed_column, predict_labels_columns, Hrun.
Qed.

(** C1 (amended).  The back-fill invariant holds in every store that
    [fix_database] returns and in every store that prediction passes make of
    such a store: each record with a label has that label as its
    [predicted_label].  ([relabel_image] is not among these steps.) *)
Theorem backfilled_invariant (db : DataFrame) :
  backfilled db → backfill_invariant db.
Proof.
  induction 1 as [db Hwf|model clock label_file fs img_files db st Hb IH Hrun].
  - apply fix_database_backfills.
  - eapply evolves_backfill; [|exact IH].
    eapply predict_labels_evolves; [|exact Hrun].
    by apply backfilled_well_formed.
Qed.

(** C1, as stated, fails: a label entered into the empty store gives a
    reachable store whose only record has a label and no
    [predicted_label]. *)
Lemma relabel_breaks_backfill :
  reachable (relabel_image 1700000000 "a" (q 7) empty_database) ∧
  ¬ backfill_invariant (relabel_image 1700000000 "a" (q 7) empty_database).
Proof.
  split; [apply reach_relabel, reach_empty|].
  intros H.
  specialize (H (mkRow "a" (Some (q 7)) (Some 1700000000) None None)).
  vm_compute in H. discriminate H; [by left | done].
Qed.

Lemma backfilled_invariant_witness :
  ∃ st,
    PredictLabels.predict_labels half noon "labels.csv"
      (fix_database (relabel_image 1700000000 "b" (q 7) store_abc)) ∅
      ("b" :: sixteen) = Ok st ∧
    backfill_invariant (PredictLabels.database st).
Proof.
  eexists. split; [vm_compute; reflexivity|].
  apply backfilled_invariant.
  eapply (backfilled_predict half noon "labels.csv" ∅ ("b" :: sixteen)
            (fix_database (relabel_image 1700000000 "b" (q 7) store_abc))).
  - apply backfilled_fix, well_formed_column.
    apply (bool_decide_unpack _). vm_compute. exact I.
  - vm_compute. reflexivity.
Defined.

Lemma predict_labels_frame_witness :
  ∃ st,
    PredictLabels.predict_labels half noon "labels.csv" store_ab ∅
      ("b" :: sixteen) = Ok st ∧
    ∃ r', rows (PredictLabels.database st) !! 1%nat = Some r' ∧
          uuid r' = "b" ∧ label r' = Some (q 5) ∧
          (present (Some (q 5)) = true → predicted_label r' = Some (q 5)).
Proof.
  eexists. split; [vm_compute; reflexivity|].
  apply (predict_labels_frame half noon "labels.csv" store_ab ∅
           ("b" :: sixteen) _) with (i := 1%nat)
           (r := mkRow "b" (Some (q 5)) (Some 0) (Some (q 5)) None).
  - apply well_formed_column, (bool_decide_unpack _). vm_compute. exact I.
  - vm_compute. reflexivity.
  - reflexivity.
Defined.

(** ** The session walk *)

Lemma py_index_nat {A} (l : list A) (k : nat) x :
  l !! k = Some x → py_index l (Z.of_nat k) = Ok x.
Proof.
  intros Hk. unfold py_index. apply lookup_lt_Some in Hk as Hlt.
  rewrite (bool_decide_eq_false_2 (Z.of_nat k < 0)) by lia.
  rewrite bool_decide_eq_true_2 by lia.
  by rewrite Nat2Z.id, Hk.
Qed.

Lemma py_index_length {A} (l : list A) :
  py_index l (Z.of_nat (length l)) = Raise IndexError.
Proof.
  unfold py_index.
  rewrite (bool_decide_eq_false_2 (Z.of_nat (length l) < 0)) by lia.
  by rewrite bool_decide_eq_false_2 by lia.
Qed.

Lemma loop_head_skip s u :
  py_index (image_files s) (current_index s) = Ok u →
  is_labeled (load u (database s)) = true →
  skip_labeled_files s = true →
  loop_head s = Continue (mkSession (image_files s) (current_index s + 1)
                                    true (database s) (disk s)).
Proof.
  intros Hu Hl Hs. unfold loop_head. by rewrite Hu, Hl, Hs.
Qed.

Lemma loop_head_no_skip s :
  skip_labeled_files s = false → ∀ s', loop_head s ≠ Continue s'.
Proof.
  intros Hs s'. unfold loop_head.
  destruct (py_index _ _) as [u|e]; [|done].
  rewrite Hs, andb_false_r. by destruct (overlay _ _ _).
Qed.

Lemma loop_head_show s u s' :
  loop_head s = Show u s' →
  py_index (image_files s) (current_index s) = Ok u ∧
  s' = mkSession (image_files s) (current_index s) false (database s) (disk s).
Proof.
  unfold loop_head. destruct (py_index _ _) as [v|e]; [|done].
  destruct (_ && _); [done|]. destruct (overlay _ _ _); [|done].
  intros [= -> <-]. done.
Qed.

Lemma on_key_flag label_file key now u s s' :
  on_key label_file key now u s = Some s' →
  skip_labeled_files s' = skip_labeled_files s.
Proof.
  unfold on_key. repeat case_bool_decide; intros [= <-]; done.
Qed.

(** A backup changes the files and nothing else of the session. *)
Lemma random_backup_session label_file draw s s' :
  random_backup label_file draw s = inr s' →
  image_files s' = image_files s ∧ current_index s' = current_index s ∧
  skip_labeled_files s' = skip_labeled_files s ∧ database s' = database s ∧
  (draw = None → disk s' = disk s).
Proof.
  unfold random_backup. destruct draw as [timestamp|].
  - destruct (create_backup _ _ _); [|done..]. by intros [= <-].
  - by intros [= <-].
Qed.

(** The skips at the start of a session in which every image has a label:
    [n] images are left, the index goes up by one for each and is never
    wrapped. *)
Lemma skip_all_labeled label_file keys files db fs : ∀ n k fuel,
  (k + n = length files)%nat → (n < fuel)%nat →
  (∀ u, u ∈ files → is_labeled (load u db) = true) →
  label_loop label_file fuel keys (mkSession files (Z.of_nat k) true db fs)
  = mkRun [] (mkSession files (Z.of_nat (length files)) true db fs)
          (Died IndexError).
Proof.
  induction n as [|n IH]; intros k fuel Hk Hfuel Hall;
    (destruct fuel as [|fuel]; [lia|]); cbn [label_loop].
  - rewrite Nat.add_0_r in Hk. subst k. unfold loop_head.
    cbn [image_files current_index]. by rewrite py_index_length.
  - destruct (lookup_lt_is_Some_2 files k) as [u Hu]; [lia|].
    rewrite (loop_head_skip _ u); cbn [image_files current_index database
                                         skip_labeled_files disk].
    + replace (Z.of_nat k + 1) with (Z.of_nat (S k)) by lia.
      apply IH; [lia | lia | done].
    + by apply py_index_nat.
    + apply Hall. apply list_elem_of_lookup. eauto.
    + done.
Qed.

(** C10.  When skipping is enabled and every image of the planned sequence
    already has a label, the session skips them all, raising the index by one
    each time without wrapping it, and then indexes the sequence at its
    length: it ends with an [IndexError] before any image is shown or any key
    is read. *)
Theorem all_labeled_session_dies (label_file : string) (files : list string)
  (db : DataFrame) (fs : gmap string (list csv_line))
  (keys : list (Z * Z * option string)) :
  files ≠ [] →
  (∀ u, u ∈ files → is_labeled (load u db) = true) →
  let r := label_loop label_file (enough_fuel files keys) keys
             (mkSession files 0 true db fs) in
  presented r = [] ∧
  ending r = Died IndexError ∧
  current_index (final r) = Z.of_nat (length files) ∧
  py_index files (current_index (final r)) = Raise IndexError.
Proof.
  intros _ Hall r. subst r.
  rewrite (skip_all_labeled label_file keys files db fs (length files) 0);
    [|done|unfold enough_fuel; lia|done].
  cbn [presented ending final current_index].
  split_and!; [done..|apply py_index_length].
Qed.

Lemma all_labeled_session_dies_witness :
  let r := label_loop "labels.csv" (enough_fuel ["b"] [(53, 1700000000, None)])
             [(53, 1700000000, None)] (mkSession ["b"] 0 true store_ab ∅) in
  presented r = [] ∧
  ending r = Died IndexError ∧
  current_index (final r) = 1 ∧
  py_index ["b"] (current_index (final r)) = Raise IndexError.
Proof.
  apply (all_labeled_session_dies "labels.csv" ["b"] store_ab ∅
           [(53, 1700000000, None)]).
  - discriminate.
  - intros u Hu. apply list_elem_of_singleton in Hu. subst u.
    vm_compute. reflexivity.
Defined.

(** The fuel given to the loop is never used up: a pass that does not end
    the loop either skips an image, which only happens before the first image
    is shown and moves the index towards the end of the sequence, or uses up
    a key. *)
Lemma label_loop_shown label_file fuel : ∀ keys s,
  skip_labeled_files s = false → (length keys < fuel)%nat →
  ending (label_loop label_file fuel keys s) ≠ OutOfFuel.
Proof.
  induction fuel as [|fuel IH]; intros keys s Hflag Hfuel; [lia|].
  cbn [label_loop]. destruct (loop_head s) as [s'|u s'|e] eqn:Hhead; [|..|done].
  - by apply loop_head_no_skip in Hhead.
  - destruct keys as [|[[key now] draw] keys]; [done|].
    destruct (on_key _ _ _ _ _) as [s1|] eqn:Hkey; [|done].
    destruct (random_backup _ _ _) as [failed|s2] eqn:Hbackup; [done|].
    cbn [ending]. apply IH; [|simpl in Hfuel; lia].
    apply random_backup_session in Hbackup as (_ & _ & -> & _).
    apply on_key_flag in Hkey. apply loop_head_show in Hhead as [_ ->].
    by rewrite Hkey.
Qed.

Lemma label_loop_fuel label_file n : ∀ fuel keys s,
  0 ≤ current_index s →
  Z.of_nat (length (image_files s)) - current_index s < Z.of_nat n →
  (n + length keys < fuel)%nat →
  ending (label_loop label_file fuel keys s) ≠ OutOfFuel.
Proof.
  induction n as [|n IH]; intros fuel keys s Hpos Hleft Hfuel;
    (destruct fuel as [|fuel]; [lia|]); cbn [label_loop].
  - unfold loop_head, py_index.
    rewrite (bool_decide_eq_false_2 (current_index s < 0)) by lia.
    by rewrite bool_decide_eq_false_2 by lia.
  - destruct (loop_head s) as [s'|u s'|e] eqn:Hhead; [|..|done].
    + assert (image_files s' = image_files s ∧
              current_index s' = current_index s + 1) as [Hf Hi].
      { unfold loop_head in Hhead. destruct (py_index _ _); [|done].
        destruct (_ && _); [by injection Hhead as <-|].
        by destruct (overlay _ _ _). }
      apply IH; [lia | rewrite Hf, Hi; lia | lia].
    + destruct keys as [|[[key now] draw] keys]; [done|].
      destruct (on_key _ _ _ _ _) as [s1|] eqn:Hkey; [|done].
      destruct (random_backup _ _ _) as [failed|s2] eqn:Hbackup; [done|].
      cbn [ending]. apply label_loop_shown; [|simpl in Hfuel; lia].
      apply random_backup_session in Hbackup as (_ & _ & -> & _).
      apply on_key_flag in Hkey. apply loop_head_show in Hhead as [_ ->].
      by rewrite Hkey.
Qed.

Lemma label_dataset_ends argsort pol root_directory label_file csv fs selected
  keys skip r :
  label_dataset argsort pol root_directory label_file csv fs selected keys
    skip = Ok r →
  ending r ≠ OutOfFuel.
Proof.
  unfold label_dataset.
  destruct (re_order_images _ _ _ _ _ _) as [[files db]|e];
    cbn [mbind result_bind]; [|done].
  intros [= <-]. apply (label_loop_fuel _ (S (length files)));
    cbn [current_index image_files]; unfold enough_fuel; lia.
Qed.

(** The skips over [n] labelled images from position [k] on. *)
Lemma skip_labeled_prefix label_file keys files db fs : ∀ n k fuel,
  (∀ j v, (k ≤ j < k + n)%nat → files !! j = Some v →
          is_labeled (load v db) = true) →
  (k + n ≤ length files)%nat →
  label_loop label_file (n + fuel) keys (mkSession files (Z.of_nat k) true db fs)
  = label_loop label_file fuel keys
      (mkSession files (Z.of_nat (k + n)) true db fs).
Proof.
  induction n as [|n IH]; intros k fuel Hlab Hlen.
  - by rewrite Nat.add_0_r.
  - cbn [Nat.add label_loop].
    destruct (lookup_lt_is_Some_2 files k) as [v Hv]; [lia|].
    rewrite (loop_head_skip _ v);
      cbn [image_files current_index database skip_labeled_files disk].
    + replace (Z.of_nat k + 1) with (Z.of_nat (S k)) by lia.
      rewrite IH; [do 3 f_equal; lia| |lia].
      intros j w Hj. apply Hlab. lia.
    + by apply py_index_nat.
    + apply (Hlab k); [lia|done].
    + done.
Qed.

(** C7 (amended).  Skipping ends with the first image shown.  While
    [skip_labeled_files] is set, a visited image that has a label is skipped
    and the index moves on by one, nothing else of the session changing: a
    run of labelled images is passed over without a key being read.  Showing
    an image clears the flag, and neither a key nor a backup sets it again,
    so at the visit that follows a key the image at the index is shown, or
    its display raises, whether or not it has a label: the visit is never a
    skip. *)
Theorem skip_ends_with_first_image :
  (∀ s u,
     skip_labeled_files s = true →
     py_index (image_files s) (current_index s) = Ok u →
     is_labeled (load u (database s)) = true →
     loop_head s = Continue (mkSession (image_files s) (current_index s + 1)
                                       true (database s) (disk s))) ∧
  (∀ label_file keys files db fs n k fuel,
     (∀ j v, (k ≤ j < k + n)%nat → files !! j = Some v →
             is_labeled (load v db) = true) →
     (k + n ≤ length files)%nat →
     label_loop label_file (n + fuel) keys
       (mkSession files (Z.of_nat k) true db fs)
     = label_loop label_file fuel keys
         (mkSession files (Z.of_nat (k + n)) true db fs)) ∧
  (∀ label_file s s1 s2 s3 u key now draw,
     loop_head s = Show u s1 →
     on_key label_file key now u s1 = Some s2 →
     random_backup label_file draw s2 = inr s3 →
     (skip_labeled_files s = true → is_labeled (load u (database s)) = false) ∧
     skip_labeled_files s1 = false ∧
     skip_labeled_files s2 = false ∧
     skip_labeled_files s3 = false ∧
     ∀ s4, loop_head s3 ≠ Continue s4).
Proof.
  split_and!.
  - intros s u Hflag Hu Hl. by apply (loop_head_skip s u).
  - intros label_file keys files db fs. apply skip_labeled_prefix.
  - intros label_file s s1 s2 s3 u key now draw Hshow Hkey Hbackup. split.
    { intros Hflag. unfold loop_head in Hshow.
      destruct (py_index _ _) as [v|]; [|done].
      rewrite Hflag, andb_true_r in Hshow.
      destruct (is_labeled (load v (database s))) eqn:Hv; [done|].
      destruct (overlay _ _ _); [|done]. by injection Hshow as <- _. }
    apply loop_head_show in Hshow as [_ ->].
    apply on_key_flag in Hkey as Hflag. cbn [skip_labeled_files] in *.
    apply random_backup_session in Hbackup as (_ & _ & Hflag3 & _).
    rewrite Hflag in Hflag3.
    split_and!; [done..|]. by apply loop_head_no_skip.
Qed.

Lemma skip_ends_with_first_image_witness :
  loop_head (mkSession ["b"; "a"] 0 true store_ab ∅)
  = Continue (mkSession ["b"; "a"] (0 + 1) true store_ab ∅) ∧
  ((skip_labeled_files (mkSession ["b"; "a"] 1 true store_ab ∅) = true →
    is_labeled (load "a" store_ab) = false) ∧
   skip_labeled_files (mkSession ["b"; "a"] 1 false store_ab ∅) = false ∧
   skip_labeled_files (mkSession ["b"; "a"] 0 false store_ab ∅) = false ∧
   skip_labeled_files (mkSession ["b"; "a"] 0 false store_ab ∅) = false ∧
   ∀ s4, loop_head (mkSession ["b"; "a"] 0 false store_ab ∅) ≠ Continue s4).
Proof.
  split.
  - apply (proj1 skip_ends_with_first_image
             (mkSession ["b"; "a"] 0 true store_ab ∅) "b");
      vm_compute; reflexivity.
  - apply (proj2 (proj2 skip_ends_with_first_image) "labels.csv"
             (mkSession ["b"; "a"] 1 true store_ab ∅) _ _ _ "a" 83 1700000000
             None);
      vm_compute; reflexivity.
Defined.

(** C7, as stated, fails: in a session over the images [a] and [b] started
    with skipping enabled, [b] has its label from the start; the labeller
    moves on from [a] with the right arrow and [b] is shown. *)
Lemma labeled_image_shown_on_later_visit :
  ∃ r,
    label_dataset np_argsort NaLast ["a"; "b"] "labels.csv" store_ab ∅
      SortUuid [(83, 1700000000, None)] true = Ok r ∧
    presented r = ["a"; "b"] ∧
    database (final r) = store_ab ∧
    is_labeled (load "b" store_ab) = true.
Proof.
  eexists. split; [vm_compute; reflexivity|]. by vm_compute.
Qed.


(** ** Saving the store *)

Lemma to_csv_prefix path db ops :
  ops `prefix_of` to_csv path db →
  ops = [] ∨ ops = [FsOpenW path] ∨ ops = to_csv path db.
Proof.
  intros [k Hk]. unfold to_csv in *.
  destruct ops as [|op1 [|op2 [|op3 ops]]]; [by left|..].
  - right. left. by injection Hk as <-.
  - right. right. by injection Hk as <- <- _.
  - done.
Qed.

Lemma save_complete path db fs :
  save path db fs !! path = Some (csv_lines db).
Proof.
  unfold save, to_csv, exec_ops. cbn [foldl exec_op].
  by rewrite lookup_alter_eq, lookup_insert_eq.
Qed.

Lemma to_csv_prefix_other path db fs ops p :
  ops `prefix_of` to_csv path db → p ≠ path →
  exec_ops ops fs !! p = fs !! p.
Proof.
  intros Hpre Hp. apply to_csv_prefix in Hpre as [->|[->| ->]]; [done|..];
    unfold to_csv, exec_ops; cbn [foldl exec_op].
  - by rewrite lookup_insert_ne.
  - by rewrite lookup_alter_ne, lookup_insert_ne.
Qed.



(** X20.  A prediction pass that ends leaves in the label file exactly the
    table it ends with: the last thing the program does is the save. *)
Lemma predict_labels_saves model clock label_file csv fs img_files st :
  PredictLabels.predict_labels model clock label_file csv fs img_files
    = Ok st →
  PredictLabels.disk st !! label_file
  = Some (csv_lines (PredictLabels.database st)).
Proof.
  unfold PredictLabels.predict_labels.
  destruct (PredictLabels.pass_loop _ _ _ _ _) as [st1|e];
    cbn [mbind result_bind]; [|done].
  intros [= <-]. cbn [PredictLabels.disk PredictLabels.database].
  apply save_complete.
Qed.




Lemma prefix_snoc_cases {A} (l : list A) x ops :
  ops `prefix_of` l ++ [x] → ops `prefix_of` l ∨ ops = l ++ [x].
Proof.
  intros [k Hk]. destruct k as [|y k _] using rev_ind.
  - right. by rewrite app_nil_r in Hk.
  - left. rewrite app_assoc in Hk. apply app_inj_tail in Hk as [-> _].
    by exists k.
Qed.

(** Written to a temporary file and moved into place, the save would be
    atomic: at no point of it does the label file hold anything but the old
    table or the new one. *)
Lemma to_csv_atomic_view tmp path db fs ops :
  tmp ≠ path →
  ops `prefix_of` to_csv_atomic tmp path db →
  atomic_view (fs !! path) db (exec_ops ops fs !! path).
Proof.
  intros Hne Hpre. apply prefix_snoc_cases in Hpre as [Hpre| ->].
  - left. by apply (to_csv_prefix_other tmp db).
  - right. unfold exec_ops. rewrite foldl_app. cbn [foldl exec_op].
    change (foldl exec_op fs (to_csv tmp db)) with (save tmp db fs).
    rewrite save_complete. by rewrite lookup_insert_eq.
Qed.



(** ** The insertion sort *)

Section InsertionSort.

Context {A : Type} (key : A → Q).






End InsertionSort.

(** ** From [argsort] and fancy indexing to sorted rows *)



(** Pairs of a position and the member at it, sorted by the member, are
    sorted by the value at the position. *)
Lemma sorted_pairs_positions {A} (key : A → Q) (l : list A)
  (pairs : list (nat * A)) :
  Forall (fun p => l !! p.1 = Some p.2) pairs →
  StronglySorted (fun a b => (key a.2 <= key b.2)%Q) pairs ↔
  StronglySorted
    (fun i j => (default 0 (map key l !! i) <= default 0 (map key l !! j))%Q)
    (map fst pairs).
Proof.
  assert (∀ p : nat * A, l !! p.1 = Some p.2 →
                         default 0%Q (map key l !! p.1) = key p.2) as Hval.
  { intros p Hp. change (map key l) with (key <$> l).
    by rewrite list_lookup_fmap, Hp. }
  induction 1 as [|p pairs Hp Hpairs IH]; [split; constructor|].
  cbn [map]. split; intros Hs; inversion Hs as [|? ? Hs' Hall]; subst;
    (constructor; [by apply IH|]).
  - apply Forall_fmap. apply Forall_forall. intros p' Hp'. simpl.
    rewrite Forall_forall in Hall, Hpairs.
    rewrite (Hval p Hp), (Hval p' (Hpairs p' Hp')). by apply Hall.
  - apply Forall_forall. intros p' Hp'.
    rewrite Forall_forall in Hall. rewrite Forall_forall in Hpairs.
    assert (p'.1 ∈ map fst pairs) as Hin
        by (apply list_elem_of_fmap; by exists p').
    specialize (Hall _ Hin). simpl in Hall.
    by rewrite (Hval p Hp), (Hval p' (Hpairs p' Hp')) in Hall.
Qed.


Lemma omap_lookup_seq {A} (l : list A) :
  omap (fun i => l !! i) (seq 0 (length l)) = l.
Proof.
  induction l as [|x l IH] using rev_ind; [done|].
  rewrite length_app, Nat.add_1_r, seq_S, omap_app. cbn [omap list_omap Nat.add].
  rewrite lookup_app_r, Nat.sub_diag by done. cbn. f_equal.
  rewrite <- IH at 2. apply list_omap_ext. apply Forall2_same_length_lookup.
  split; [done|]. intros i a b Ha Hb. rewrite Ha in Hb. injection Hb as <-.
  apply lookup_seq in Ha as [-> Hi]. by rewrite lookup_app_l.
Qed.

(** The index array of an [argsort] that [sorts], with the members it points
    at: these are the members of the list, sorted by their key. *)
Lemma argsort_pairs {A} argsort (key : A → Q) (l : list A) :
  sorts argsort →
  ∃ pairs : list (nat * A),
    argsort (map key l) = map fst pairs ∧
    Forall (fun p => l !! p.1 = Some p.2) pairs ∧
    map snd pairs ≡ₚ l ∧
    StronglySorted (fun a b => (key a <= key b)%Q) (map snd pairs).
Proof.
  intros Hsorts. destruct (Hsorts (map key l)) as [Hperm Hsorted].
  rewrite length_map in Hperm.
  set (order := argsort (map key l)) in *.
  exists (omap (fun i => (fun x => (i, x)) <$> l !! i) order).
  assert (Forall (fun i => is_Some (l !! i)) order) as Hin.
  { apply Forall_forall. intros i Hi. rewrite Hperm in Hi.
    apply elem_of_seq in Hi. apply lookup_lt_is_Some. lia. }
  assert (order = map fst (omap (fun i => (fun x => (i, x)) <$> l !! i) order))
    as Hfst.
  { clear Hperm Hsorted. induction Hin as [|i order [x Hx] _ IH]; [done|].
    cbn [omap list_omap]. rewrite Hx. cbn. by rewrite <- IH. }
  assert (Forall (fun p => l !! p.1 = Some p.2)
                 (omap (fun i => (fun x => (i, x)) <$> l !! i) order)) as Hl.
  { apply Forall_forall. intros [i x] Hp.
    apply list_elem_of_omap in Hp as (j & _ & Hj).
    destruct (l !! j) eqn:Hlj; simplify_eq/=. done. }
  split_and!; [done|done| |].
  - assert (map snd (omap (fun i => (fun x => (i, x)) <$> l !! i) order)
            = omap (fun i => l !! i) order) as ->.
    { clear. induction order as [|i order IH]; [done|].
      cbn [omap list_omap]. destruct (l !! i); cbn; by rewrite IH. }
    rewrite Hperm. by rewrite omap_lookup_seq.
  - rewrite Hfst in Hsorted.
    apply (sorted_pairs_positions key l _ Hl) in Hsorted.
    clear -Hsorted.
    induction Hsorted as [|p pairs _ IH Hall]; constructor; [done|].
    by apply Forall_fmap.
Qed.

Lemma np_take_lookup {A} (array : list A) js : ∀ xs,
  Forall2 (fun j x => array !! j = Some x) js xs →
  np_take array (map Z.of_nat js) = Ok xs.
Proof.
  induction js as [|j js IH]; intros xs H; inversion H as [|? x ? xs' Hj Hjs];
    subst; [done|].
  cbn [map np_take]. rewrite (py_index_nat _ _ x) by done.
  cbn [mbind result_bind]. by rewrite (IH xs').
Qed.

(** The positions that [notna_idx] and [isna_idx] list are those of the rows
    with, and without, a value in the column. *)
Lemma where_idx (cell : Row → option Q) (keep : bool) rs : ∀ k,
  Forall2 (fun j r => (k ≤ j)%nat ∧ rs !! (j - k)%nat = Some r)
    (omap (fun iv : nat * option Q =>
             if bool_decide (present iv.2 = keep) then Some iv.1 else None)
          (imap (fun i v => ((k + i)%nat, v)) (map cell rs)))
    (filter (fun r => present (cell r) = keep) rs).
Proof.
  induction rs as [|r rs IH]; intros k; [constructor|].
  cbn [map imap omap]. rewrite Nat.add_0_r.
  rewrite (imap_ext _ (fun i v => ((S k + i)%nat, v))).
  2:{ intros i x _. simpl. f_equal. lia. }
  assert (Forall2 (fun j r0 => (k ≤ j)%nat ∧ (r :: rs) !! (j - k)%nat = Some r0)
            (omap (fun iv : nat * option Q =>
                     if bool_decide (present iv.2 = keep) then Some iv.1
                     else None)
                  (imap (fun i v => ((S k + i)%nat, v)) (map cell rs)))
            (filter (fun r => present (cell r) = keep) rs)) as Htl.
  { eapply Forall2_impl; [apply (IH (S k))|]. intros j r0 [Hj Hr0].
    split; [lia|]. replace (j - k)%nat with (S (j - S k)) by lia. done. }
  cbn [list_omap fst snd]. case_bool_decide as Hr.
  - rewrite filter_cons_True by done. constructor; [|done].
    split; [lia|]. by rewrite Nat.sub_diag.
  - by rewrite filter_cons_False by done.
Qed.

Lemma omap_ext_fun {A B} (f g : A → option B) (l : list A) :
  (∀ x, f x = g x) → omap f l = omap g l.
Proof.
  intros Hfg. induction l as [|x l IH]; [done|].
  cbn [omap list_omap]. rewrite Hfg, IH. done.
Qed.

Lemma notna_idx_rows (cell : Row → option Q) rs :
  Forall2 (fun j r => rs !! j = Some r)
    (notna_idx (map cell rs)) (filter (has cell) rs).
Proof.
  pose proof (where_idx cell true rs 0) as H. unfold notna_idx.
  rewrite (omap_ext_fun _ (fun iv : nat * option Q =>
             if bool_decide (present iv.2 = true) then Some iv.1 else None)).
  2:{ intros [i v]. simpl. destruct (present v); by case_bool_decide. }
  eapply Forall2_impl; [exact H|].
  intros j r [_ Hj]. by rewrite Nat.sub_0_r in Hj.
Qed.

Lemma isna_idx_rows (cell : Row → option Q) rs :
  Forall2 (fun j r => rs !! j = Some r)
    (isna_idx (map cell rs)) (filter (lacks cell) rs).
Proof.
  pose proof (where_idx cell false rs 0) as H. unfold isna_idx.
  rewrite (omap_ext_fun _ (fun iv : nat * option Q =>
             if bool_decide (present iv.2 = false) then Some iv.1 else None)).
  2:{ intros [i v]. simpl. destruct (present v); by case_bool_decide. }
  eapply Forall2_impl; [exact H|].
  intros j r [_ Hj]. by rewrite Nat.sub_0_r in Hj.
Qed.

Lemma notna_values_rows (cell : Row → option Q) rs :
  notna_values (map cell rs) = map (float_key cell) (filter (has cell) rs).
Proof.
  unfold notna_values.
  induction rs as [|r rs IH]; [done|]. cbn [map omap].
  unfold has, float_key, key_of in *.
  destruct (cell r) as [v|] eqn:Hr; simpl.
  - rewrite filter_cons_True by (by rewrite Hr). simpl. by rewrite Hr, <- IH.
  - by rewrite filter_cons_False by (by rewrite Hr).
Qed.

Lemma filter_has_all (cell : Row → option Q) rs :
  Forall (has cell) rs →
  filter (has cell) rs = rs ∧ filter (lacks cell) rs = [] ∧
  forallb present (map cell rs) = true.
Proof.
  induction 1 as [|r rs Hr _ (IH1 & IH2 & IH3)]; [done|].
  rewrite filter_cons_True by done.
  rewrite filter_cons_False by (unfold lacks, has in *; congruence).
  cbn [map forallb]. unfold has in Hr. rewrite Hr, IH1, IH2, IH3. done.
Qed.

Lemma pairs_lookup {A} (l : list A) (pairs : list (nat * A)) :
  Forall (fun p => l !! p.1 = Some p.2) pairs →
  Forall2 (fun j x => l !! j = Some x) (map fst pairs) (map snd pairs).
Proof. induction 1; constructor; auto. Qed.

Lemma pairs_lookup_through {A} (l scored : list A) (idx : list nat)
  (pairs : list (nat * A)) :
  Forall2 (fun j x => l !! j = Some x) idx scored →
  Forall (fun p => scored !! p.1 = Some p.2) pairs →
  Forall2 (fun j x => l !! j = Some x)
    (omap (fun o => idx !! o) (map fst pairs)) (map snd pairs).
Proof.
  intros Hidx. induction 1 as [|[o x] pairs Hox _ IH]; [constructor|].
  cbn [map omap list_omap fst snd] in *.
  destruct (Forall2_lookup_r _ _ _ _ _ Hidx Hox) as (j & -> & Hj).
  by constructor.
Qed.

(** What [series.argsort()] followed by [values[...]] amounts to: when the
    missing values are ordered last, or there is none, the indices point at
    the rows that have a value, in ascending order of it, followed by the
    rows that have none, in row order. *)
Lemma series_argsort_rows argsort pol (cell : Row → option Q) rs :
  sorts argsort →
  pol = NaLast ∨ Forall (has cell) rs →
  ∃ js ordered,
    series_argsort argsort pol (map cell rs) = map Z.of_nat js ∧
    Forall2 (fun j r => rs !! j = Some r) js
      (ordered ++ filter (lacks cell) rs) ∧
    sorted_by (float_key cell) (filter (has cell) rs) ordered.
Proof.
  intros Hsorts Hcond. unfold series_argsort. rewrite notna_values_rows.
  destruct (argsort_pairs argsort (float_key cell) (filter (has cell) rs)
              Hsorts) as (pairs & -> & Hpairs & Hperm & Hsorted).
  assert (pol = NaLast ∨ pol = NaMinusOne ∧ Forall (has cell) rs) as [->|[-> Hall]].
  { destruct pol; [right|left]; [|done]. split; [done|]. by destruct Hcond. }
  - eexists _, (map snd pairs). split_and!; [reflexivity| |done].
    apply Forall2_app.
    + eapply pairs_lookup_through; [apply notna_idx_rows | exact Hpairs].
    + apply isna_idx_rows.
  - destruct (filter_has_all cell rs Hall) as (Hhas & Hlacks & ->).
    rewrite Hhas in Hpairs.
    eexists _, (map snd pairs). split_and!; [reflexivity| |done].
    rewrite Hlacks, app_nil_r. by apply pairs_lookup.
Qed.

(** The same, with the uuids taken at the indices. *)
Lemma argsort_take_uuids argsort pol (cell : Row → option Q) rs :
  sorts argsort →
  pol = NaLast ∨ Forall (has cell) rs →
  ∃ ordered,
    np_take (map uuid rs) (series_argsort argsort pol (map cell rs))
    = Ok (map uuid (ordered ++ filter (lacks cell) rs)) ∧
    sorted_by (float_key cell) (filter (has cell) rs) ordered.
Proof.
  intros Hsorts Hcond.
  destruct (series_argsort_rows argsort pol cell rs Hsorts Hcond)
    as (js & ordered & -> & Hjs & Hordered).
  exists ordered. split; [|done].
  apply np_take_lookup. apply Forall2_fmap_r.
  eapply Forall2_impl; [exact Hjs|]. intros j r Hj. simpl.
  change (map uuid rs) with (uuid <$> rs). by rewrite list_lookup_fmap, Hj.
Qed.


(** ** The planner *)

Lemma get_column_ok c get db :
  c ∈ columns db → get_column c get db = Ok (map get (rows db)).
Proof. intros Hc. unfold get_column. by rewrite bool_decide_eq_true_2. Qed.


(** "Predicted bad first" orders the records of the store.  When the store
    has the [predicted_label] column and [argsort] orders missing values last
    (or no value is missing), the result lists the uuids of the rows that
    have a prediction in ascending order of it, followed by the uuids of the
    rows without one. *)
Lemma predicted_bad_first_plan argsort pol root_directory image_files db :
  sorts argsort →
  "predicted_label" ∈ columns db →
  pol = NaLast ∨ Forall (has predicted_label) (rows db) →
  ∃ ordered,
    re_order_images argsort pol root_directory PredictedBadFirst image_files
      db
    = Ok (map uuid (ordered ++ filter (lacks predicted_label) (rows db)),
          db) ∧
    sorted_by (float_key predicted_label)
      (filter (has predicted_label) (rows db)) ordered.
Proof.
  intros Hsorts Hcol Hcond.
  destruct (argsort_take_uuids argsort pol predicted_label (rows db) Hsorts
              Hcond) as (ordered & Htake & Hordered).
  exists ordered. split; [|done].
  unfold re_order_images, files_of_rows. rewrite get_column_ok by done.
  cbn [mbind result_bind]. by rewrite Htake.
Qed.

(** Where the condition on missing values matters: with the -1 marking, a
    record without a prediction that is not stored last is read at index -1
    and the other indices are off by the rows skipped, so the result is
    neither sorted nor ends with the unscored record. *)
Lemma minus_one_marking_misplaces :
  re_order_images np_argsort NaMinusOne ["a"; "b"; "c"] PredictedBadFirst
    ["a"; "b"; "c"] store_unset_first = Ok (["c"; "a"; "b"], store_unset_first) ∧
  re_order_images np_argsort NaLast ["a"; "b"; "c"] PredictedBadFirst
    ["a"; "b"; "c"] store_unset_first = Ok (["b"; "c"; "a"], store_unset_first).
Proof. split; vm_compute; reflexivity. Qed.

(** C5.  [re_order_images] is to sort the image files, and the claim has
    every image of the directory in the result.  With the images [a], [b],
    [c], [d] in the directory and the records [{a: 0.9, b: 0.1, c: unset}],
    "Predicted bad first" plans [b, a, c], under either treatment of missing
    values: the sequence is made of the uuids of the records, the images
    passed in are not looked at, and image [d], which has no record, is not
    in it. *)
Theorem image_without_record_not_planned :
  re_order_images np_argsort NaLast ["a"; "b"; "c"; "d"] PredictedBadFirst
    (sorted_jpgs ["a"; "b"; "c"; "d"]) store_abc
  = Ok (["b"; "a"; "c"], store_abc) ∧
  re_order_images np_argsort NaMinusOne ["a"; "b"; "c"; "d"] PredictedBadFirst
    (sorted_jpgs ["a"; "b"; "c"; "d"]) store_abc
  = Ok (["b"; "a"; "c"], store_abc) ∧
  "d" ∈ sorted_jpgs ["a"; "b"; "c"; "d"] ∧
  "d" ∉ ["b"; "a"; "c"].
Proof.
  split_and!; [vm_compute; reflexivity..| |];
    apply (bool_decide_unpack _); vm_compute; exact I.
Qed.




Lemma with_distance_uuid db : map uuid (with_distance db) = map uuid (rows db).
Proof. unfold with_distance. rewrite map_map. by apply map_ext. Qed.



(** Whatever order [argsort] gives to two equal keys, it gives it to the
    positions and not to the uuids: the index array returned for two equal
    keys cannot read [x], [y] both from the rows [x], [y] and from the rows
    [y], [x]. *)
Lemma py_index_pair (x y : string) (i : Z) :
  py_index [x; y] i = Ok x → py_index [y; x] i = Ok x → x = y.
Proof.
  unfold py_index. cbn [length].
  set (j := if bool_decide (i < 0) then _ else _). clearbody j.
  case_bool_decide as Hj; [|done].
  assert (Z.to_nat j = 0%nat ∨ Z.to_nat j = 1%nat) as [-> | ->] by lia;
    simpl; congruence.
Qed.

Lemma ties_follow_positions (argsort : list (option Q) → list Z)
  (keys : list (option Q)) (x y : string) :
  x ≠ y →
  ¬ (np_take [x; y] (argsort keys) = Ok [x; y] ∧
     np_take [y; x] (argsort keys) = Ok [x; y]).
Proof.
  intros Hxy [H1 H2]. destruct (argsort keys) as [|i idx]; [done|].
  cbn [np_take] in H1, H2.
  destruct (py_index [x; y] i) as [a|] eqn:Ha; [|done].
  destruct (py_index [y; x] i) as [b|] eqn:Hb; [|done].
  cbn [mbind result_bind] in H1, H2.
  destruct (np_take [x; y] idx); [|done].
  destruct (np_take [y; x] idx); [|done].
  cbn [mbind result_bind] in H1, H2. injection H1 as -> _. injection H2 as -> _.
  by apply Hxy, (py_index_pair x y i).
Qed.


(** ** Uniqueness of the uuids *)

(** C4.  The prediction pass run on a store with one record, [img00] without
    a label, and the sixteen images [img00] .. [img15]: the batch is handed
    to [predict] with the selection made for [img15], which has no record,
    so every image of the batch is appended, [img00] among them.  The store
    had each uuid once; the result has [img00] twice. *)
Theorem predict_labels_duplicates_uuid :
  ∃ st,
    PredictLabels.predict_labels half noon "labels.csv" store_img00 ∅ sixteen
      = Ok st ∧
    NoDup (map uuid (rows store_img00)) ∧
    map uuid (rows (PredictLabels.database st)) = "img00" :: sixteen ∧
    ¬ NoDup (map uuid (rows (PredictLabels.database st))).
Proof.
  eexists. split; [vm_compute; reflexivity|]. split_and!.
  - apply (bool_decide_unpack _). vm_compute. exact I.
  - vm_compute. reflexivity.
  - apply (bool_decide_unpack _). vm_compute. exact I.
Qed.

(** * Further properties of the code *)

(** ** [relabel_image] and [load] *)

Lemma add_column_in c cols : c ∈ cols → add_column c cols = cols.
Proof. intros Hc. unfold add_column. by rewrite bool_decide_eq_true_2. Qed.

(** The two tests of [relabel_image], the emptiness of the selection and the
    first index of the selection, agree. *)
Lemma relabel_image_unfold now u l db :
  relabel_image now u l db
  = match list_find (fun r => uuid r = u) (rows db) with
    | None => concat_row ["uuid"; "label"; "timestamp"]
                (mkRow u (Some l) (Some now) None None) db
    | Some (i, _) =>
        loc_set i "timestamp" (set_timestamp (Some now))
          (loc_set i "label" (set_label (Some l)) db)
    end.
Proof.
  unfold relabel_image, loc_uuid.
  pose proof (loc_uuid_find u (rows db)) as H.
  destruct (list_find _ (rows db)) as [[i r]|].
  - by destruct H as (_ & _ & tl & ->).
  - by rewrite H.
Qed.

Lemma load_find u db :
  load u db
  = (fun p : nat * Row => label p.2)
      <$> list_find (fun r => uuid r = u) (rows db).
Proof.
  unfold load, loc_uuid. pose proof (loc_uuid_find u (rows db)) as H.
  destruct (list_find _ (rows db)) as [[i r]|]; simpl.
  - by destruct H as (_ & _ & tl & ->).
  - by rewrite H.
Qed.

(** Rewriting a row in a way that keeps its uuid does not move the first
    row of any uuid. *)
Lemma list_find_alter_uuid u (f : Row → Row) (rs : list Row) : ∀ i : nat,
  (∀ r, uuid (f r) = uuid r) →
  list_find (fun r => uuid r = u) (alter f i rs)
  = (fun p : nat * Row => (p.1, if decide (p.1 = i) then f p.2 else p.2))
      <$> list_find (fun r => uuid r = u) rs.
Proof.
  intros i Hf. revert i. induction rs as [|r rs IH]; intros i; [done|].
  destruct i as [|i]; cbn [alter list_alter list_find].
  - rewrite Hf. destruct (decide (uuid r = u)); [done|].
    destruct (list_find _ rs) as [[j x]|]; [|done]. done.
  - destruct (decide (uuid r = u)); [done|].
    change (list_alter f i rs) with (alter f i rs). rewrite IH.
    destruct (list_find _ rs) as [[j x]|]; [|done]. simpl.
    do 2 f_equal. destruct (decide (j = i)), (decide (S j = S i)); done || lia.
Qed.

(** After [relabel_image] the first row of the uuid carries the label and
    the call time. *)
Lemma relabel_image_first_row now u l db :
  ∃ i r,
    list_find (fun r => uuid r = u) (rows (relabel_image now u l db))
      = Some (i, r) ∧
    label r = Some l ∧ timestamp r = Some now.
Proof.
  rewrite relabel_image_unfold.
  destruct (list_find _ (rows db)) as [[i r]|] eqn:Hfind.
  - exists i, (set_timestamp (Some now) (set_label (Some l) r)).
    split; [|done]. unfold loc_set. cbn [rows].
    rewrite !list_find_alter_uuid by done. rewrite Hfind. simpl.
    by rewrite !decide_True.
  - exists (length (rows db)), (mkRow u (Some l) (Some now) None None).
    split; [|done]. cbn [rows concat_row].
    rewrite list_find_app_r by done. simpl.
    by rewrite decide_True by done.
Qed.

(** X1.  A label written by [relabel_image] is the label that [load] reads
    back for that uuid, whether the uuid had a row or not. *)
Theorem load_relabel_image (now : Z) (u : string) (l : Q) (db : DataFrame) :
  load u (relabel_image now u l db) = Some (Some l).
Proof.
  rewrite load_find.
  destruct (relabel_image_first_row now u l db) as (i & r & -> & Hl & _).
  simpl. by rewrite Hl.
Qed.

Lemma filter_alter_other (P : Row → Prop) `{!∀ r, Decision (P r)}
  (f : Row → Row) (rs : list Row) : ∀ i : nat,
  (∀ r, rs !! i = Some r → ¬ P r ∧ ¬ P (f r)) →
  filter P (alter f i rs) = filter P rs.
Proof.
  induction rs as [|r rs IH]; intros i Hi; [done|].
  destruct i as [|i]; cbn [alter list_alter].
  - destruct (Hi r eq_refl) as [H1 H2].
    by rewrite !filter_cons_False.
  - rewrite !(filter_cons _ r).
    change (list_alter f i rs) with (alter f i rs). rewrite IH; [done|].
    intros r' Hr'. by apply Hi.
Qed.

(** X2.  [relabel_image] leaves the records of every other uuid as they
    are, in number, content and order. *)
Theorem relabel_image_other (now : Z) (u u' : string) (l : Q)
  (db : DataFrame) :
  u' ≠ u →
  loc_uuid u' (relabel_image now u l db) = loc_uuid u' db.
Proof.
  intros Hne. rewrite relabel_image_unfold. unfold loc_uuid.
  pose proof (loc_uuid_find u (rows db)) as Hfind.
  destruct (list_find _ (rows db)) as [[i r]|].
  - destruct Hfind as (Hi & Hu & _). unfold loc_set. cbn [rows].
    rewrite filter_alter_other.
    + apply filter_alter_other. intros r' Hr'. simplify_eq.
      split; simpl; congruence.
    + intros r' Hr'. rewrite list_lookup_alter_eq, Hi in Hr'.
      simpl in Hr'. simplify_eq. split; simpl; congruence.
  - cbn [rows concat_row]. rewrite filter_app.
    rewrite (filter_cons_False _ (mkRow _ _ _ _ _)) by (simpl; congruence).
    by rewrite filter_nil, app_nil_r.
Qed.

Lemma relabel_image_other_witness :
  loc_uuid "b" (relabel_image 1700000000 "a" (q 7) store_abc)
  = loc_uuid "b" store_abc.
Proof. apply (relabel_image_other 1700000000 "a" "b" (q 7) store_abc). done.
Defined.

(** X3.  [relabel_image] never gives a uuid a second row: a store in which
    every uuid has one row stays so, and the number of rows grows by one
    exactly when the uuid had none. *)
Theorem relabel_image_unique (now : Z) (u : string) (l : Q) (db : DataFrame) :
  NoDup (map uuid (rows db)) →
  NoDup (map uuid (rows (relabel_image now u l db))) ∧
  length (rows (relabel_image now u l db))
  = (if bool_decide (u ∈ map uuid (rows db)) then length (rows db)
     else S (length (rows db))).
Proof.
  intros Hnd. rewrite relabel_image_unfold.
  destruct (list_find _ (rows db)) as [[i r]|] eqn:Hfind.
  - apply list_find_Some in Hfind as (Hi & Hu & _).
    unfold loc_set. cbn [rows]. split.
    + change (map uuid ?x) with (uuid <$> x).
      rewrite !(list_fmap_alter uuid _ id) by (by apply Forall_true).
      by rewrite !list_alter_id.
    + rewrite !length_alter. rewrite bool_decide_eq_true_2; [done|].
      apply list_elem_of_fmap. exists r. split; [done|].
      by eapply list_elem_of_lookup_2.
  - apply list_find_None in Hfind. cbn [rows concat_row].
    assert (u ∉ map uuid (rows db)) as Hnot.
    { intros (r & -> & Hr)%list_elem_of_fmap.
      rewrite Forall_forall in Hfind. by apply (Hfind r). }
    split.
    + rewrite map_app. apply NoDup_app. split_and!; [done| |].
      * intros x Hx Hin. apply list_elem_of_singleton in Hin. by subst.
      * apply NoDup_singleton.
    + rewrite length_app, (bool_decide_eq_false_2 _ Hnot). simpl. lia.
Qed.

Lemma relabel_image_unique_witness :
  NoDup (map uuid (rows (relabel_image 1700000000 "d" (q 7) store_abc))) ∧
  length (rows (relabel_image 1700000000 "d" (q 7) store_abc))
  = (if bool_decide ("d" ∈ map uuid (rows store_abc))
     then length (rows store_abc) else S (length (rows store_abc))).
Proof.
  apply (relabel_image_unique 1700000000 "d" (q 7) store_abc).
  apply (bool_decide_unpack _). vm_compute. exact I.
Defined.

Lemma alter_alter {A} (f g : A → A) (l : list A) : ∀ i : nat,
  alter g i (alter f i l) = alter (g ∘ f) i l.
Proof.
  induction l as [|x l IH]; intros [|i]; cbn [alter list_alter]; [done..|].
  f_equal. apply IH.
Qed.

Lemma alter_snoc {A} (f : A → A) (l : list A) x :
  alter f (length l) (l ++ [x]) = l ++ [f x].
Proof. apply alter_middle. Qed.

(** X4.  The last label wins: relabelling a uuid twice gives the store that
    the second relabel alone gives, rows and columns alike. *)
Theorem relabel_image_twice (now now' : Z) (u : string) (l l' : Q)
  (db : DataFrame) :
  relabel_image now u l (relabel_image now' u l' db)
  = relabel_image now u l db.
Proof.
  rewrite (relabel_image_unfold now u l (relabel_image now' u l' db)).
  rewrite !(relabel_image_unfold _ u _ db).
  destruct (list_find _ (rows db)) as [[i r]|] eqn:Hfind.
  - assert (list_find (fun r0 => uuid r0 = u)
              (rows (loc_set i "timestamp" (set_timestamp (Some now'))
                       (loc_set i "label" (set_label (Some l')) db)))
            = Some (i, set_timestamp (Some now') (set_label (Some l') r)))
      as ->.
    { unfold loc_set. cbn [rows].
      rewrite !list_find_alter_uuid by done. rewrite Hfind. simpl.
      by rewrite !decide_True. }
    unfold loc_set. cbn [rows columns]. f_equal.
    + rewrite (add_column_in "label") by
        (apply add_column_mono, add_column_elem).
      by rewrite add_column_idem.
    + by rewrite !alter_alter.
  - assert (list_find (fun r0 => uuid r0 = u)
              (rows (concat_row ["uuid"; "label"; "timestamp"]
                       (mkRow u (Some l') (Some now') None None) db))
            = Some (length (rows db),
                    mkRow u (Some l') (Some now') None None)) as ->.
    { cbn [rows concat_row]. rewrite list_find_app_r by done. simpl.
      by rewrite decide_True by done. }
    unfold loc_set, concat_row. cbn [rows columns foldl]. f_equal.
    + rewrite (add_column_in "label") by
        (apply add_column_mono, add_column_elem).
      by rewrite add_column_idem.
    + rewrite alter_alter. by rewrite alter_snoc.
Qed.

(** ** [fix_database] *)

(** X5.  [fix_database] keeps the number of rows and, of every row, the
    uuid, the label, the timestamp and the distance; the [predicted_label] of
    a row becomes its label when it has one and stays as it is otherwise. *)
Theorem fix_database_frame (db : DataFrame) (i : nat) (r : Row) :
  rows db !! i = Some r →
  length (rows (fix_database db)) = length (rows db) ∧
  ∃ r', rows (fix_database db) !! i = Some r' ∧
        uuid r' = uuid r ∧ label r' = label r ∧
        timestamp r' = timestamp r ∧
        distance_from_median r' = distance_from_median r ∧
        predicted_label r'
        = (if present (label r) then label r else predicted_label r).
Proof.
  intros Hi. rewrite fix_database_map. cbn [rows].
  split; [apply length_map|]. exists (backfill_row r).
  change (map backfill_row ?l) with (backfill_row <$> l).
  rewrite list_lookup_fmap, Hi. split; [done|].
  unfold backfill_row. by destruct (present (label r)).
Qed.

Lemma fix_database_frame_witness :
  length (rows (fix_database store_ab)) = length (rows store_ab) ∧
  ∃ r', rows (fix_database store_ab) !! 1%nat = Some r' ∧
        uuid r' = "b" ∧ label r' = Some (q 5) ∧
        timestamp r' = Some 0 ∧
        distance_from_median r' = None ∧
        predicted_label r'
        = (if present (Some (q 5)) then Some (q 5) else Some (q 5)).
Proof.
  apply (fix_database_frame store_ab 1
           (mkRow "b" (Some (q 5)) (Some 0) (Some (q 5)) None)).
  reflexivity.
Defined.

(** ** Keys *)

Lemma on_key_files label_file key now u s s' :
  on_key label_file key now u s = Some s' →
  image_files s' = image_files s ∧
  ∃ i, current_index s' = i `mod` Z.of_nat (length (image_files s)).
Proof.
  unfold on_key. repeat case_bool_decide; intros [= <-];
    (split; [done|]); eexists; reflexivity.
Qed.

(** X6.  After any key that does not end the session the index is within
    the bounds of the sequence, so the indexing at the top of the loop cannot
    raise after a key has been pressed. *)
Theorem on_key_in_bounds (label_file : string) (key now : Z) (u : string)
  (s s' : Session) :
  image_files s ≠ [] →
  on_key label_file key now u s = Some s' →
  0 ≤ current_index s' < Z.of_nat (length (image_files s')) ∧
  ∃ v, py_index (image_files s') (current_index s') = Ok v.
Proof.
  intros Hne Hkey. apply on_key_files in Hkey as [Hf [i Hi]].
  assert (0 < Z.of_nat (length (image_files s))) as Hlen.
  { destruct (image_files s); [done|]. simpl. lia. }
  pose proof (Z.mod_pos_bound i _ Hlen) as Hb. rewrite Hf, Hi.
  split; [done|].
  destruct (lookup_lt_is_Some_2 (image_files s)
              (Z.to_nat (i `mod` Z.of_nat (length (image_files s)))))
    as [v Hv]; [lia|].
  exists v. rewrite <- (Z2Nat.id (i `mod` _)) by lia. by apply py_index_nat.
Qed.

Lemma on_key_in_bounds_witness :
  0 ≤ current_index (mkSession ["a"; "b"] 1 false store_ab ∅)
    < Z.of_nat (length (image_files (mkSession ["a"; "b"] 1 false store_ab ∅))) ∧
  ∃ v, py_index (image_files (mkSession ["a"; "b"] 1 false store_ab ∅))
         (current_index (mkSession ["a"; "b"] 1 false store_ab ∅)) = Ok v.
Proof.
  apply (on_key_in_bounds "labels.csv" 81 1700000000 "a"
           (mkSession ["a"; "b"] 0 false store_ab ∅)).
  - done.
  - vm_compute. reflexivity.
Defined.

Lemma on_key_arrow label_file key now u s :
  key = 81 ∨ key = 83 →
  on_key label_file key now u s
  = Some (mkSession (image_files s)
            ((current_index s + (if bool_decide (key = 81) then -1 else 1))
               `mod` Z.of_nat (length (image_files s)))
            (skip_labeled_files s) (database s) (disk s)).
Proof. by intros [-> | ->]. Qed.

(** X7.  The arrow keys undo each other.  In two passes of the loop that go
    on, the first with a left arrow and the second with a right arrow, or
    the other way round, started from an index within bounds, the session
    comes back to the index it had, also across the ends of the sequence;
    the sequence, the flag and the frame are the same, and so are the files
    when no backup is drawn after either key. *)
Theorem arrows_undo (label_file : string) (key key' now now' : Z)
  (u u' : string) (draw draw' : option string) (s s1 s2 s3 s4 : Session) :
  0 ≤ current_index s < Z.of_nat (length (image_files s)) →
  (key = 81 ∧ key' = 83) ∨ (key = 83 ∧ key' = 81) →
  on_key label_file key now u s = Some s1 →
  random_backup label_file draw s1 = inr s2 →
  on_key label_file key' now' u' s2 = Some s3 →
  random_backup label_file draw' s3 = inr s4 →
  image_files s4 = image_files s ∧
  current_index s4 = current_index s ∧
  skip_labeled_files s4 = skip_labeled_files s ∧
  database s4 = database s ∧
  (draw = None → draw' = None → s4 = s).
Proof.
  intros Hb Hkeys Hk1 Hb1 Hk2 Hb2.
  rewrite on_key_arrow in Hk1 by (destruct Hkeys as [[-> _]|[-> _]]; auto).
  rewrite on_key_arrow in Hk2 by (destruct Hkeys as [[_ ->]|[_ ->]]; auto).
  injection Hk1 as <-. injection Hk2 as <-.
  apply random_backup_session in Hb1 as (Hf2 & Hi2 & Hg2 & Hd2 & Hfs2).
  apply random_backup_session in Hb2 as (Hf4 & Hi4 & Hg4 & Hd4 & Hfs4).
  cbn [image_files current_index skip_labeled_files database disk] in *.
  assert (current_index s4 = current_index s) as Hindex.
  { rewrite Hi4, Hi2, Hf2.
    destruct Hkeys as [[-> ->]|[-> ->]];
      rewrite ?(bool_decide_eq_true_2 (81 = 81)),
              ?(bool_decide_eq_false_2 (83 = 81)) by done.
    - rewrite Zplus_mod_idemp_l.
      replace (current_index s + -1 + 1) with (current_index s) by lia.
      by apply Z.mod_small.
    - rewrite Zplus_mod_idemp_l.
      replace (current_index s + 1 + -1) with (current_index s) by lia.
      by apply Z.mod_small. }
  split_and!; [congruence..|].
  intros Hdraw Hdraw'. specialize (Hfs2 Hdraw). specialize (Hfs4 Hdraw').
  destruct s, s4. cbn in *. congruence.
Qed.

Lemma arrows_undo_witness :
  image_files (mkSession ["a"; "b"; "c"] 0 false store_abc ∅)
  = image_files (mkSession ["a"; "b"; "c"] 0 false store_abc ∅) ∧
  current_index (mkSession ["a"; "b"; "c"] 0 false store_abc ∅)
  = current_index (mkSession ["a"; "b"; "c"] 0 false store_abc ∅) ∧
  skip_labeled_files (mkSession ["a"; "b"; "c"] 0 false store_abc ∅)
  = skip_labeled_files (mkSession ["a"; "b"; "c"] 0 false store_abc ∅) ∧
  database (mkSession ["a"; "b"; "c"] 0 false store_abc ∅)
  = database (mkSession ["a"; "b"; "c"] 0 false store_abc ∅) ∧
  (@None string = None → @None string = None →
   mkSession ["a"; "b"; "c"] 0 false store_abc ∅
   = mkSession ["a"; "b"; "c"] 0 false store_abc ∅).
Proof.
  apply (arrows_undo "labels.csv" 81 83 0 1 "a" "c" None None
           (mkSession ["a"; "b"; "c"] 0 false store_abc ∅)
           (mkSession ["a"; "b"; "c"] 2 false store_abc ∅)
           (mkSession ["a"; "b"; "c"] 2 false store_abc ∅)
           (mkSession ["a"; "b"; "c"] 0 false store_abc ∅)
           (mkSession ["a"; "b"; "c"] 0 false store_abc ∅)).
  - simpl. lia.
  - by left.
  - vm_compute. reflexivity.
  - reflexivity.
  - vm_compute. reflexivity.
  - reflexivity.
Defined.

(** X8.  Only the digit keys write the store.  In a pass of the loop with
    any other key that does not end the session, the frame stays as it is
    and the handling of the key leaves the files as they are: the files
    after the pass are those before it when no backup is drawn, and those
    the backup makes of them when one is. *)
Theorem other_keys_do_not_write (label_file : string) (key now : Z)
  (draw : option string) (u : string) (s s1 s2 : Session) :
  ¬ (48 ≤ key ≤ 57) →
  on_key label_file key now u s = Some s1 →
  random_backup label_file draw s1 = inr s2 →
  database s2 = database s ∧
  disk s1 = disk s ∧
  match draw with
  | None => disk s2 = disk s
  | Some timestamp =>
      create_backup timestamp label_file (disk s) = BackedUp (disk s2)
  end.
Proof.
  intros Hkey Hk Hbackup.
  assert (database s1 = database s ∧ disk s1 = disk s) as [Hdb Hfs].
  { revert Hk. unfold on_key. rewrite bool_decide_eq_false_2 by done.
    repeat case_bool_decide; intros [= <-]; done. }
  unfold random_backup in Hbackup. rewrite Hfs in Hbackup.
  destruct draw as [timestamp|].
  - destruct (create_backup _ _ _) as [fs'| |]; [|done..].
    injection Hbackup as <-. by rewrite Hdb.
  - injection Hbackup as <-. by rewrite Hdb, Hfs.
Qed.

Lemma other_keys_do_not_write_witness :
  database (mkSession ["a"; "b"] 1 false store_ab disk_abc) = store_ab ∧
  disk (mkSession ["a"; "b"] 1 false store_ab disk_abc) = disk_abc ∧
  disk (mkSession ["a"; "b"] 1 false store_ab disk_abc) = disk_abc.
Proof.
  apply (other_keys_do_not_write "labels.csv" 83 1700000000 None "a"
           (mkSession ["a"; "b"] 0 false store_ab disk_abc)
           (mkSession ["a"; "b"] 1 false store_ab disk_abc)
           (mkSession ["a"; "b"] 1 false store_ab disk_abc)).
  - lia.
  - vm_compute. reflexivity.
  - reflexivity.
Defined.

(** X9.  A digit key [d] records the label d/10, a value between 0 and 0.9,
    for the image shown.  The handling of the key does not end the loop:
    [load] reads the label back from the new frame, the label file has been
    written with that frame, and the index has moved on by one, wrapping at
    the end.  The backup that may follow in the same pass changes neither
    the frame nor the index, and when none is drawn the files stay as the
    save left them. *)
Theorem digit_key_labels (label_file : string) (key now : Z) (u : string)
  (s : Session) :
  48 ≤ key ≤ 57 →
  ∃ s1,
    on_key label_file key now u s = Some s1 ∧
    load u (database s1) = Some (Some ((key - 48) # 10)%Q) ∧
    (0 <= (key - 48) # 10 <= 9 # 10)%Q ∧
    disk s1 !! label_file = Some (csv_lines (database s1)) ∧
    current_index s1
    = (current_index s + 1) `mod` Z.of_nat (length (image_files s)) ∧
    ∀ draw s2,
      random_backup label_file draw s1 = inr s2 →
      database s2 = database s1 ∧ current_index s2 = current_index s1 ∧
      (draw = None → disk s2 = disk s1).
Proof.
  intros Hkey. unfold on_key. rewrite bool_decide_eq_true_2 by done.
  eexists. split; [reflexivity|]. cbn [database disk current_index].
  split_and!.
  - rewrite load_find.
    destruct (relabel_image_first_row now u ((key - 48) # 10)%Q (database s))
      as (i & r & -> & Hl & _).
    simpl. by rewrite Hl.
  - unfold Qle. simpl. lia.
  - unfold Qle. simpl. lia.
  - apply save_complete.
  - done.
  - intros draw s2 Hbackup.
    apply random_backup_session in Hbackup as (_ & Hi & _ & Hdb & Hfs).
    done.
Qed.

Lemma digit_key_labels_witness :
  ∃ s1,
    on_key "labels.csv" 55 1700000000 "a"
      (mkSession ["a"; "b"] 0 false store_ab ∅) = Some s1 ∧
    load "a" (database s1) = Some (Some ((55 - 48) # 10)%Q) ∧
    (0 <= (55 - 48) # 10 <= 9 # 10)%Q ∧
    disk s1 !! "labels.csv" = Some (csv_lines (database s1)) ∧
    current_index s1 = (0 + 1) `mod` Z.of_nat (length ["a"; "b"]) ∧
    ∀ draw s2,
      random_backup "labels.csv" draw s1 = inr s2 →
      database s2 = database s1 ∧ current_index s2 = current_index s1 ∧
      (draw = None → disk s2 = disk s1).
Proof.
  apply (digit_key_labels "labels.csv" 55 1700000000 "a"
           (mkSession ["a"; "b"] 0 false store_ab ∅)).
  lia.
Defined.

(** ** Images the session cannot show *)





(** ** The planner, continued *)

Lemma py_index_error {A} (l : list A) i e :
  py_index l i = Raise e → e = IndexError.
Proof.
  unfold py_index. case_bool_decide; [|congruence].
  destruct (l !! _); congruence.
Qed.

Lemma np_take_error {A} (array : list A) idx : ∀ e,
  np_take array idx = Raise e → e = IndexError.
Proof.
  induction idx as [|i idx IH]; intros e; cbn [np_take]; [done|].
  destruct (py_index array i) eqn:Hi; cbn [mbind result_bind].
  - destruct (np_take array idx); cbn [mbind result_bind]; [done|].
    intros [= <-]. by apply IH.
  - intros [= <-]. by eapply py_index_error.
Qed.

Lemma np_take_app {A} (array : list A) idx1 idx2 :
  np_take array (idx1 ++ idx2)
  = xs ← np_take array idx1; ys ← np_take array idx2; Ok (xs ++ ys).
Proof.
  induction idx1 as [|i idx1 IH]; cbn [app np_take mbind result_bind].
  - by destruct (np_take array idx2).
  - destruct (py_index array i); cbn [mbind result_bind]; [|done].
    rewrite IH. destruct (np_take array idx1); cbn [mbind result_bind]; [|done].
    by destruct (np_take array idx2).
Qed.

Lemma np_take_rev {A} (array : list A) idx :
  np_take array (rev idx)
  = match np_take array idx with
    | Ok xs => Ok (rev xs)
    | Raise e => Raise e
    end.
Proof.
  induction idx as [|i idx IH]; [done|].
  cbn [rev]. rewrite np_take_app, IH. cbn [np_take].
  destruct (py_index array i) eqn:Hi; cbn [mbind result_bind].
  - destruct (np_take array idx); cbn [mbind result_bind]; done.
  - apply py_index_error in Hi as ->.
    destruct (np_take array idx) eqn:Ht; cbn [mbind result_bind]; [done|].
    by apply np_take_error in Ht as ->.
Qed.

(** X13.  "Predicted good first" plans the sequence of "Predicted bad
    first" in reverse, and fails when and as it fails. *)
Theorem good_first_is_bad_first_reversed (argsort : list Q → list nat)
  (pol : na_policy) (root_directory image_files : list string)
  (db : DataFrame) :
  re_order_images argsort pol root_directory PredictedGoodFirst image_files db
  = match re_order_images argsort pol root_directory PredictedBadFirst
            image_files db
    with
    | Ok (files, db') => Ok (rev files, db')
    | Raise e => Raise e
    end.
Proof.
  unfold re_order_images, files_of_rows.
  destruct (get_column _ _ _) as [predicted|e]; cbn [mbind result_bind];
    [|done].
  rewrite np_take_rev. by destruct (np_take _ _).
Qed.

Lemma string_leb_trans a : ∀ b c,
  String.leb a b = true → String.leb b c = true → String.leb a c = true.
Proof.
  unfold String.leb.
  induction a as [|x a IH]; intros [|y b] [|z c]; simpl; try done.
  unfold Ascii.compare.
  destruct (N.compare_spec (Ascii.N_of_ascii x) (Ascii.N_of_ascii y)) as [Hxy|Hxy|Hxy];
    destruct (N.compare_spec (Ascii.N_of_ascii y) (Ascii.N_of_ascii z)) as [Hyz|Hyz|Hyz];
    try done.
  - rewrite Hxy, Hyz, N.compare_refl. apply IH.
  - intros _ _. rewrite Hxy. by apply N.compare_lt_iff in Hyz as ->.
  - intros _ _. rewrite <- Hyz. by apply N.compare_lt_iff in Hxy as ->.
  - intros _ _.
    assert (Ascii.N_of_ascii x < Ascii.N_of_ascii z)%N as H by (by etrans).
    by apply N.compare_lt_iff in H as ->.
Qed.

Section SortBy.

Context {A : Type} (leb : A → A → bool).
Hypothesis leb_total : ∀ x y, leb x y = true ∨ leb y x = true.
Hypothesis leb_trans : ∀ x y z, leb x y = true → leb y z = true → leb x z = true.

Lemma insert_by_perm_leb x l : insert_by leb x l ≡ₚ x :: l.
Proof.
  induction l as [|y l IH]; [done|]. simpl.
  destruct (leb x y); [done|]. rewrite IH. apply Permutation_swap.
Qed.

Lemma sort_by_perm_leb l : sort_by leb l ≡ₚ l.
Proof.
  induction l as [|x l IH]; [done|]. unfold sort_by in *. simpl.
  rewrite insert_by_perm_leb. by constructor.
Qed.

Lemma insert_by_sorted_leb x l :
  StronglySorted (fun a b => leb a b = true) l →
  StronglySorted (fun a b => leb a b = true) (insert_by leb x l).
Proof.
  induction 1 as [|y l Hl IH Hy]; simpl.
  - constructor; constructor.
  - destruct (leb x y) eqn:Hxy.
    + constructor; [by constructor|]. constructor; [done|].
      eapply Forall_impl; [exact Hy|]. intros z Hz. simpl in Hz. eauto.
    + constructor; [done|].
      assert (leb y x = true) as Hyx by (destruct (leb_total x y); congruence).
      apply Forall_forall. intros z Hz. rewrite insert_by_perm_leb in Hz.
      apply elem_of_cons in Hz as [->|Hz]; [done|].
      rewrite Forall_forall in Hy. by apply Hy.
Qed.

Lemma sort_by_sorted_leb l :
  StronglySorted (fun a b => leb a b = true) (sort_by leb l).
Proof.
  induction l as [|x l IH]; [constructor|]. by apply insert_by_sorted_leb.
Qed.

End SortBy.

(** X14.  The uuid ordering ignores the store and the sequence passed in:
    it returns the images of the directory, each once, in ascending order of
    file name, and the store as it was. *)
Theorem uuid_order_sorts_directory (argsort : list Q → list nat)
  (pol : na_policy) (root_directory image_files : list string)
  (db : DataFrame) :
  ∃ files,
    re_order_images argsort pol root_directory SortUuid image_files db
    = Ok (files, db) ∧
    files ≡ₚ root_directory ∧
    StronglySorted
      (fun a b => String.leb (a +:+ ".jpg") (b +:+ ".jpg") = true) files.
Proof.
  exists (sorted_jpgs root_directory). split_and!; [done| |].
  - apply sort_by_perm_leb.
  - apply (sort_by_sorted_leb
             (fun a b => String.leb (a +:+ ".jpg") (b +:+ ".jpg"))).
    + intros x y. apply String.leb_total.
    + intros x y z. apply string_leb_trans.
Qed.

Lemma relabel_image_columns now u l db d :
  d ∈ columns db → d ∈ columns (relabel_image now u l db).
Proof.
  intros Hd. rewrite relabel_image_unfold.
  destruct (list_find _ (rows db)) as [[i r]|].
  - by do 2 apply loc_set_columns.
  - by apply concat_row_columns.
Qed.

(** X15.  The [distance_from_median] column that the "middle" ordering
    writes into the frame stays there: the save made by the next digit key
    writes a label file that has the column in its header. *)
Theorem middle_distance_is_saved (argsort : list Q → list nat)
  (pol : na_policy) (root_directory image_files files : list string)
  (db db' : DataFrame) (label_file : string) (key now i : Z) (u : string)
  (flag : bool) (fs : gmap string (list csv_line)) :
  re_order_images argsort pol root_directory Middle image_files db
    = Ok (files, db') →
  48 ≤ key ≤ 57 →
  ∃ s1 cols records,
    on_key label_file key now u (mkSession files i flag db' fs) = Some s1 ∧
    disk s1 !! label_file = Some (CsvHeader cols :: records) ∧
    "distance_from_median" ∈ cols.
Proof.
  intros Hplan Hkey. unfold on_key. rewrite bool_decide_eq_true_2 by done.
  eexists _, _, _. split; [reflexivity|]. cbn [disk database].
  split; [apply save_complete|].
  apply relabel_image_columns.
  unfold re_order_images, files_of_rows in Hplan.
  destruct (get_column _ _ _) as [predicted|]; cbn [mbind result_bind] in Hplan;
    [|done].
  destruct (np_take _ _); cbn [mbind result_bind] in Hplan; [|done].
  injection Hplan as _ <-. apply add_column_elem.
Qed.

Lemma middle_distance_is_saved_witness :
  ∃ s1 cols records,
    on_key "labels.csv" 55 1700000000 "b"
      (mkSession ["b"; "a"; "c"] 0 false
         (mkDataFrame (add_column "distance_from_median" all_columns)
                      (with_distance store_median)) ∅) = Some s1 ∧
    disk s1 !! "labels.csv" = Some (CsvHeader cols :: records) ∧
    "distance_from_median" ∈ cols.
Proof.
  apply (middle_distance_is_saved np_argsort NaLast ["a"; "b"; "c"]
           ["a"; "b"; "c"] ["b"; "a"; "c"] store_median).
  - vm_compute. reflexivity.
  - lia.
Defined.

(** ** [predict] and the prediction pass, continued *)

(** The insert branch of [predict], taken for every uuid of the batch
    when the selection handed over is empty. *)
Lemma predict_insert_rows model clock us : ∀ t db,
  ∃ db',
    PredictLabels.predict model clock t us db [] = Ok db' ∧
    rows db'
    = rows db
      ++ imap (fun i u => mkRow u None (Some (clock (t + i)%nat))
                                (Some (model u)) None) us.
Proof.
  induction us as [|u us IH]; intros t db.
  - exists db. split; [done|]. by rewrite app_nil_r.
  - cbn [PredictLabels.predict mbind result_bind].
    destruct (IH (S t) (concat_row ["uuid"; "timestamp"; "predicted_label"]
                          (mkRow u None (Some (clock t)) (Some (model u)) None)
                          db)) as (db' & -> & Hrows).
    exists db'. split; [done|]. rewrite Hrows. cbn [rows concat_row imap].
    rewrite <- app_assoc, Nat.add_0_r. cbn [app]. do 2 f_equal.
    apply imap_ext. intros i v _. simpl. do 3 f_equal. lia.
Qed.

Lemma inserted_uuids (f : nat → string → Row) us :
  (∀ i u, uuid (f i u) = u) → map uuid (imap f us) = us.
Proof.
  intros Hf. change (map uuid ?l) with (uuid <$> l). rewrite fmap_imap.
  rewrite (imap_ext _ (const id)) by (intros; apply Hf).
  rewrite imap_const. apply list_fmap_id.
Qed.

(** X16.  Handed an empty selection, a [predict] that returns has appended
    one record per uuid of the batch, in batch order, with the score of the
    model, the time of its clock reading and no label.  It does not look
    whether a uuid has a record: a uuid of the batch that has one has two
    afterwards. *)
Theorem predict_inserts (model : string → Q) (clock : nat → Z)
  (us : list string) (t : nat) (db db' : DataFrame) :
  PredictLabels.predict model clock t us db [] = Ok db' →
  rows db'
  = rows db
    ++ imap (fun i u => mkRow u None (Some (clock (t + i)%nat))
                              (Some (model u)) None) us ∧
  ∀ u, u ∈ us → u ∈ map uuid (rows db) → ¬ NoDup (map uuid (rows db')).
Proof.
  intros Hrun.
  destruct (predict_insert_rows model clock us t db) as (db1 & Hrun1 & Hrows).
  rewrite Hrun1 in Hrun. injection Hrun as <-. split; [done|].
  intros u Hus Hdb. rewrite Hrows, map_app, inserted_uuids by done.
  intros (_ & Hdisjoint & _)%NoDup_app. by apply (Hdisjoint u).
Qed.

Lemma predict_inserts_witness :
  ∃ db',
    PredictLabels.predict half noon 0 ["a"; "d"] store_abc [] = Ok db' ∧
    rows db'
    = rows store_abc
      ++ imap (fun i u => mkRow u None (Some (noon (0 + i)%nat))
                                (Some (half u)) None) ["a"; "d"] ∧
    ∀ u, u ∈ ["a"; "d"] → u ∈ map uuid (rows store_abc) →
         ¬ NoDup (map uuid (rows db')).
Proof.
  eexists. split; [vm_compute; reflexivity|].
  apply (predict_inserts half noon ["a"; "d"] 0 store_abc).
  vm_compute. reflexivity.
Defined.

Lemma loc_uuid_nil u db : loc_uuid u db = [] ↔ u ∉ map uuid (rows db).
Proof.
  unfold loc_uuid. induction (rows db) as [|r rs IH]; simpl.
  - split; [intros _ H; by apply elem_of_nil in H|done].
  - destruct (decide (uuid r = u)) as [Hr|Hr].
    + rewrite filter_cons_True by done. split; [done|].
      intros H. destruct H. rewrite Hr. by left.
    + rewrite filter_cons_False by done. rewrite IH.
      rewrite not_elem_of_cons.
      split; [intros Hu; split; [congruence|done] | by intros [_ Hu]].
Qed.





Lemma pass_loop_pending model clock label_file img_files : ∀ st,
  PredictLabels.n_predictions st = 0%nat →
  (length (PredictLabels.uuids st)
   + length (filter (fun u => PredictLabels.already_labeled
                                (loc_uuid u (PredictLabels.database st)) = false)
                    img_files)
   < PredictLabels.batch_size)%nat →
  ∃ fs',
    PredictLabels.pass_loop model clock label_file img_files st
    = Ok (PredictLabels.mkPass (PredictLabels.database st)
            (PredictLabels.uuids st
             ++ filter (fun u => PredictLabels.already_labeled
                                   (loc_uuid u (PredictLabels.database st))
                                 = false) img_files)
            0 (PredictLabels.ticks st) fs').
Proof.
  induction img_files as [|u rest IH]; intros [db us n t fs] Hn Hlen;
    cbn [PredictLabels.database PredictLabels.uuids PredictLabels.ticks
         PredictLabels.n_predictions] in *; subst n.
  - exists fs. by rewrite app_nil_r.
  - cbn [PredictLabels.pass_loop]. unfold PredictLabels.pass_step.
    cbn [PredictLabels.database PredictLabels.uuids PredictLabels.ticks
         PredictLabels.n_predictions PredictLabels.disk].
    destruct (PredictLabels.already_labeled (loc_uuid u db)) eqn:Hu.
    + rewrite filter_cons_False in Hlen |- * by congruence.
      cbn [mbind result_bind].
      apply (IH (PredictLabels.mkPass db us 0 t fs)); [done|exact Hlen].
    + rewrite filter_cons_True in Hlen |- * by done.
      rewrite bool_decide_eq_false_2
        by (rewrite length_app; simpl in *; lia).
      cbn [mbind result_bind PredictLabels.n_predictions].
      rewrite bool_decide_eq_true_2 by done.
      cbn [PredictLabels.database PredictLabels.uuids PredictLabels.ticks
           PredictLabels.n_predictions PredictLabels.disk].
      destruct (IH (PredictLabels.mkPass db (us ++ [u]) 0 t
                      (save label_file db fs))) as [fs' Hfs']; [done| |].
      { cbn [PredictLabels.database PredictLabels.uuids].
        rewrite length_app. simpl in *. lia. }
      exists fs'. rewrite Hfs'.
      cbn [PredictLabels.database PredictLabels.uuids PredictLabels.ticks].
      by rewrite <- app_assoc.
Qed.

(** X18.  Images are predicted sixteen at a time and what is left over is
    not predicted at all: a pass that finds fewer than sixteen images without
    a label and runs to its end leaves the rows of the store as they were
    and the images found waiting in the batch; the store has the
    [predicted_label] column, added when it was not there, and is written to
    the label file. *)
Theorem incomplete_batch_not_predicted (model : string → Q)
  (clock : nat → Z) (label_file : string) (csv : DataFrame)
  (fs : gmap string (list csv_line)) (img_files : list string)
  (st : PredictLabels.Pass) :
  well_formed csv →
  (length (filter (fun u => PredictLabels.already_labeled (loc_uuid u csv)
                            = false) img_files)
   < PredictLabels.batch_size)%nat →
  PredictLabels.predict_labels model clock label_file csv fs img_files
    = Ok st →
  rows (PredictLabels.database st) = rows csv ∧
  columns (PredictLabels.database st)
  = add_column "predicted_label" (columns csv) ∧
  PredictLabels.uuids st
  = filter (fun u => PredictLabels.already_labeled (loc_uuid u csv) = false)
           img_files ∧
  PredictLabels.disk st !! label_file
  = Some (csv_lines (PredictLabels.database st)).
Proof.
  intros Hwf Hlen. unfold PredictLabels.predict_labels.
  set (db := if bool_decide ("predicted_label" ∈ columns csv) then csv
             else set_column "predicted_label" set_predicted_label
                    (map (fun _ => None) (rows csv)) csv).
  assert (rows db = rows csv ∧
          columns db = add_column "predicted_label" (columns csv))
    as [Hrows Hcols].
  { unfold db, add_column. case_bool_decide as Hcol; [done|].
    split;
      [|unfold set_column, add_column; cbn [columns];
        by rewrite bool_decide_eq_false_2].
    unfold set_column. cbn [rows].
    specialize (Hwf Hcol). clear -Hwf.
    induction (rows csv) as [|r rs IH]; [done|]. cbn [map zip_with].
    rewrite IH by (intros r' Hr'; apply Hwf; by right).
    f_equal. destruct r as [u l t p d]. unfold set_predicted_label. simpl.
    f_equal. symmetry. apply (Hwf (mkRow u l t p d)). by left. }
  assert (∀ u, loc_uuid u db = loc_uuid u csv) as Hloc
      by (intros u; unfold loc_uuid; by rewrite Hrows).
  destruct (pass_loop_pending model clock label_file img_files
              (PredictLabels.mkPass db [] 0 0 fs)) as [fs' ->]; [done| |].
  { cbn [PredictLabels.database PredictLabels.uuids length Nat.add].
    erewrite list_filter_iff; [exact Hlen|]. intros u. by rewrite Hloc. }
  cbn [mbind result_bind PredictLabels.database PredictLabels.uuids
       PredictLabels.ticks PredictLabels.n_predictions PredictLabels.disk].
  intros [= <-].
  cbn [PredictLabels.database PredictLabels.uuids PredictLabels.disk app].
  split_and!; [done|done| |apply save_complete].
  apply list_filter_iff. intros u. by rewrite Hloc.
Qed.

Lemma incomplete_batch_not_predicted_witness :
  ∃ st,
    PredictLabels.predict_labels half noon "labels.csv" empty_database ∅
      ["a"; "b"; "d"] = Ok st ∧
    rows (PredictLabels.database st) = rows empty_database ∧
    columns (PredictLabels.database st)
    = add_column "predicted_label" (columns empty_database) ∧
    PredictLabels.uuids st
    = filter (fun u => PredictLabels.already_labeled
                         (loc_uuid u empty_database) = false)
             ["a"; "b"; "d"] ∧
    PredictLabels.disk st !! "labels.csv"
    = Some (csv_lines (PredictLabels.database st)).
Proof.
  eexists. split; [vm_compute; reflexivity|].
  apply (incomplete_batch_not_predicted half noon "labels.csv" empty_database
           ∅ ["a"; "b"; "d"]).
  - intros _ r Hr. by apply elem_of_nil in Hr.
  - vm_compute. lia.
  - vm_compute. reflexivity.
Defined.

(** What the module-level loop maintains on a store that started empty,
    after the images [full ++ pend]: the images of the complete batches have
    one record each, the others wait in the batch. *)
Lemma fresh_pass_step model clock label_file full pend u st :
  u ∉ full ++ pend →
  map uuid (rows (PredictLabels.database st)) = full →
  PredictLabels.uuids st = pend →
  (length pend < PredictLabels.batch_size)%nat →
  Forall (fun r => label r = None ∧ predicted_label r = Some (model (uuid r)))
         (rows (PredictLabels.database st)) →
  ∃ st' full' pend',
    PredictLabels.pass_step model clock label_file st u = Ok st' ∧
    full ++ pend ++ [u] = full' ++ pend' ∧
    (length full' = length full
     ∨ length full' = length full + PredictLabels.batch_size)%nat ∧
    map uuid (rows (PredictLabels.database st')) = full' ∧
    PredictLabels.uuids st' = pend' ∧
    (length pend' < PredictLabels.batch_size)%nat ∧
    Forall (fun r => label r = None ∧ predicted_label r = Some (model (uuid r)))
           (rows (PredictLabels.database st')).
Proof.
  intros Hu Hdone Hpend Hlen Hrows. destruct st as [db us n t fs].
  cbn [PredictLabels.database PredictLabels.uuids] in *. subst us.
  unfold PredictLabels.pass_step.
  cbn [PredictLabels.database PredictLabels.uuids PredictLabels.ticks
       PredictLabels.n_predictions PredictLabels.disk].
  assert (loc_uuid u db = []) as ->.
  { apply loc_uuid_nil. rewrite Hdone. intros H. apply Hu, elem_of_app. by left. }
  cbn [PredictLabels.already_labeled]. case_bool_decide as Hfull.
  - destruct (predict_insert_rows model clock (pend ++ [u]) t db)
      as (db' & -> & Hdb').
    cbn [mbind result_bind PredictLabels.n_predictions].
    exists (if bool_decide ((n + PredictLabels.batch_size) `mod` 100 = 0)%nat
            then PredictLabels.mkPass db' [] (n + PredictLabels.batch_size)
                   (t + length (pend ++ [u])) (save label_file db' fs)
            else PredictLabels.mkPass db' [] (n + PredictLabels.batch_size)
                   (t + length (pend ++ [u])) fs),
           (full ++ pend ++ [u]), [].
    split; [by case_bool_decide|]. rewrite app_nil_r.
    split; [done|]. split; [right; rewrite length_app, Hfull; lia|].
    assert (map uuid (rows db') = full ++ pend ++ [u]) as Huuids.
    { by rewrite Hdb', map_app, inserted_uuids, Hdone. }
    assert (Forall (fun r => label r = None
                             ∧ predicted_label r = Some (model (uuid r)))
                   (rows db')) as Hrows'.
    { rewrite Hdb'. apply Forall_app. split; [done|].
      apply Forall_forall. intros r Hr.
      apply elem_of_lookup_imap_1 in Hr as (i & v & -> & _). done. }
    case_bool_decide; cbn [PredictLabels.database PredictLabels.uuids];
      (split_and!; [done|done|unfold PredictLabels.batch_size; simpl; lia|done]).
  - cbn [mbind result_bind PredictLabels.n_predictions].
    exists (if bool_decide (n `mod` 100 = 0)%nat
            then PredictLabels.mkPass db (pend ++ [u]) n t
                   (save label_file db fs)
            else PredictLabels.mkPass db (pend ++ [u]) n t fs),
           full, (pend ++ [u]).
    split; [by case_bool_decide|]. split; [done|]. split; [by left|].
    rewrite length_app in Hfull |- *. simpl in *.
    case_bool_decide; cbn [PredictLabels.database PredictLabels.uuids];
      (split_and!; [done|done|lia|done]).
Qed.

Lemma fresh_pass_loop model clock label_file rest : ∀ full pend st,
  NoDup (full ++ pend ++ rest) →
  Nat.divide PredictLabels.batch_size (length full) →
  map uuid (rows (PredictLabels.database st)) = full →
  PredictLabels.uuids st = pend →
  (length pend < PredictLabels.batch_size)%nat →
  Forall (fun r => label r = None ∧ predicted_label r = Some (model (uuid r)))
         (rows (PredictLabels.database st)) →
  ∃ st' full' pend',
    PredictLabels.pass_loop model clock label_file rest st = Ok st' ∧
    full ++ pend ++ rest = full' ++ pend' ∧
    Nat.divide PredictLabels.batch_size (length full') ∧
    map uuid (rows (PredictLabels.database st')) = full' ∧
    PredictLabels.uuids st' = pend' ∧
    (length pend' < PredictLabels.batch_size)%nat ∧
    Forall (fun r => label r = None ∧ predicted_label r = Some (model (uuid r)))
           (rows (PredictLabels.database st')).
Proof.
  induction rest as [|u rest IH]; intros full pend st Hnd Hdiv Hdone Hpend Hlen Hrows.
  - exists st, full, pend. by rewrite app_nil_r.
  - cbn [PredictLabels.pass_loop].
    destruct (fresh_pass_step model clock label_file full pend u st)
      as (st1 & full1 & pend1 & -> & Hsplit & Hgrow & Hfull1 & Hpend1
          & Hlen1 & Hrows1); [|done..|].
    { rewrite app_assoc in Hnd. apply NoDup_app in Hnd as (_ & Hdis & Hrest).
      intros Hin. apply (Hdis u Hin). by left. }
    cbn [mbind result_bind].
    destruct (IH full1 pend1 st1) as (st' & full' & pend' & Hrun & Hsplit'
                                      & Hrest'); [| |done..|].
    + replace (full1 ++ pend1 ++ rest) with (full ++ pend ++ u :: rest); [done|].
      rewrite (app_assoc full1), <- Hsplit. by rewrite <- !app_assoc.
    + destruct Hgrow as [->| ->]; [done|].
      by apply Nat.divide_add_r; [|apply Nat.divide_refl].
    + exists st', full', pend'. split; [done|]. split; [|done].
      rewrite <- Hsplit'. rewrite (app_assoc full1), <- Hsplit.
      by rewrite <- !app_assoc.
Qed.

(** X19.  The first pass over a directory, without a label file, when it
    runs to its end: the images, taken in directory order, have been
    predicted in batches of sixteen.  Every image of a complete batch has
    exactly one record, with the score of the model and no label; the images
    after the last complete batch have none and are left in the batch that
    is never handed to [predict]. *)
Theorem first_pass_predicts_full_batches (model : string → Q)
  (clock : nat → Z) (label_file : string) (fs : gmap string (list csv_line))
  (img_files : list string) (st : PredictLabels.Pass) :
  NoDup img_files →
  PredictLabels.predict_labels model clock label_file empty_database fs
    img_files = Ok st →
  ∃ full pend,
    img_files = full ++ pend ∧
    Nat.divide PredictLabels.batch_size (length full) ∧
    (length pend < PredictLabels.batch_size)%nat ∧
    map uuid (rows (PredictLabels.database st)) = full ∧
    PredictLabels.uuids st = pend ∧
    Forall (fun r => label r = None ∧ predicted_label r = Some (model (uuid r)))
           (rows (PredictLabels.database st)).
Proof.
  intros Hnd. unfold PredictLabels.predict_labels.
  destruct (fresh_pass_loop model clock label_file img_files [] []
              (PredictLabels.mkPass
                 (if bool_decide ("predicted_label" ∈ columns empty_database)
                  then empty_database
                  else set_column "predicted_label" set_predicted_label
                         (map (fun _ => None) (rows empty_database))
                         empty_database) [] 0 0 fs))
    as (st1 & full & pend & -> & Hsplit & Hdiv & Hdone & Hpend & Hlen & Hrows);
    [done|apply Nat.divide_0_r|done|done|
     unfold PredictLabels.batch_size; simpl; lia|by vm_compute|].
  cbn [mbind result_bind]. intros [= <-]. exists full, pend.
  cbn [PredictLabels.database PredictLabels.uuids].
  done.
Qed.

Lemma first_pass_predicts_full_batches_witness :
  ∃ st,
    PredictLabels.predict_labels half noon "labels.csv" empty_database ∅
      (sixteen ++ ["img16"]) = Ok st ∧
    ∃ full pend,
      sixteen ++ ["img16"] = full ++ pend ∧
      Nat.divide PredictLabels.batch_size (length full) ∧
      (length pend < PredictLabels.batch_size)%nat ∧
      map uuid (rows (PredictLabels.database st)) = full ∧
      PredictLabels.uuids st = pend ∧
      Forall (fun r => label r = None
                       ∧ predicted_label r = Some (half (uuid r)))
             (rows (PredictLabels.database st)).
Proof.
  eexists. split; [vm_compute; reflexivity|].
  apply (first_pass_predicts_full_batches half noon "labels.csv" ∅
           (sixteen ++ ["img16"])).
  - apply (bool_decide_unpack _). vm_compute. exact I.
  - vm_compute. reflexivity.
Defined.

Lemma predict_labels_saves_witness :
  ∃ st,
    PredictLabels.predict_labels half noon "labels.csv" store_img00 disk_abc
      sixteen = Ok st ∧
    PredictLabels.disk st !! "labels.csv"
    = Some (csv_lines (PredictLabels.database st)).
Proof.
  eexists. split; [vm_compute; reflexivity|].
  apply (predict_labels_saves half noon "labels.csv" store_img00 disk_abc
           sixteen).
  vm_compute. reflexivity.
Defined.


(** ** [create_backup] *)

Lemma string_app_assoc (a b c : string) : (a +:+ b) +:+ c = a +:+ b +:+ c.
Proof.
  induction a as [|x a IH]; [done|].
  change (String x ((a +:+ b) +:+ c) = String x (a +:+ b +:+ c)).
  by rewrite IH.
Qed.

Lemma strip_prefix_app p : ∀ s rest,
  strip_prefix p s = Some rest → s = p +:+ rest.
Proof.
  induction p as [|a p IH]; intros [|b s] rest; cbn [strip_prefix];
    try done; try (by intros [= <-]).
  destruct (Ascii.eqb_spec a b) as [->|]; [|done].
  intros H. rewrite (IH _ _ H). reflexivity.
Qed.

Lemma first_component_file s name :
  first_component s = (name, false) → s = name.
Proof.
  revert name. induction s as [|c s IH]; intros name; simpl.
  - by intros [= <-].
  - destruct (is_slash c); [done|].
    destruct (first_component s) as [n d]. intros [= <- ->].
    f_equal. by apply IH.
Qed.

(** A file listed for a folder is listed under its own path. *)
Lemma listed_file folder key p :
  listed folder key = Some (p, false) → p = key.
Proof.
  unfold listed. destruct (strip_prefix _ key) as [rest|] eqn:Hrest; [|done].
  simpl. destruct (first_component rest) as [name d] eqn:Hname.
  destruct (visible name); [|done]. intros [= <- ->].
  apply strip_prefix_app in Hrest. apply first_component_file in Hname.
  by rewrite Hrest, Hname, string_app_assoc.
Qed.

Lemma remove_backups_keys folder keys : ∀ fs fs1,
  remove_backups (omap (listed folder) keys) fs = Some fs1 →
  ∀ k, fs1 !! k
       = if bool_decide (k ∈ keys) && old_backup folder k then None
         else fs !! k.
Proof.
  induction keys as [|key keys IH]; intros fs fs1 Hrun k.
  - cbn in Hrun. injection Hrun as <-.
    by rewrite bool_decide_eq_false_2 by apply not_elem_of_nil.
  - cbn [omap list_omap] in Hrun.
    change (list_omap _ _ (listed folder) keys)
      with (omap (listed folder) keys) in Hrun.
    assert (∀ fs0, remove_backups (omap (listed folder) keys) fs0 = Some fs1 →
                   old_backup folder key = false →
                   fs0 !! k = fs !! k →
                   fs1 !! k = (if bool_decide (k ∈ key :: keys)
                                  && old_backup folder k
                               then None else fs !! k)) as Hskip.
    { intros fs0 Hrun0 Hkey Hk. rewrite (IH _ _ Hrun0), Hk.
      destruct (decide (k = key)) as [->|Hne].
      - rewrite Hkey, !andb_false_r. done.
      - destruct (decide (k ∈ keys)) as [Hin|Hin].
        + rewrite !bool_decide_eq_true_2; [done|by right|done].
        + rewrite !bool_decide_eq_false_2; [done| |done].
          by intros [?|?]%elem_of_cons. }
    destruct (listed folder key) as [[p d]|] eqn:Hlisted.
    + cbn [remove_backups] in Hrun.
      destruct (contains "_db_backup_" p) eqn:Hp.
      * destruct d; [done|]. apply listed_file in Hlisted as Hpk. subst p.
        rewrite (IH _ _ Hrun).
        destruct (decide (k = key)) as [->|Hne].
        -- rewrite lookup_delete_eq. unfold old_backup. rewrite Hlisted, Hp.
           rewrite (bool_decide_eq_true_2 (key ∈ key :: keys)) by (by left).
           by destruct (bool_decide (key ∈ keys)).
        -- rewrite lookup_delete_ne by done.
           destruct (decide (k ∈ keys)) as [Hin|Hin].
           ++ rewrite !bool_decide_eq_true_2; [done|by right|done].
           ++ rewrite !bool_decide_eq_false_2; [done| |done].
              by intros [?|?]%elem_of_cons.
      * apply (Hskip fs); [done| |done]. unfold old_backup. rewrite Hlisted.
        destruct d; [done|]. apply listed_file in Hlisted. by subst p.
    + apply (Hskip fs); [done| |done]. unfold old_backup. by rewrite Hlisted.
Qed.

(** After the loop the old backups are gone and every other file is as it
    was. *)
Lemma remove_backups_glob folder fs fs1 :
  remove_backups (glob_star folder fs) fs = Some fs1 →
  ∀ k, fs1 !! k = if old_backup folder k then None else fs !! k.
Proof.
  intros Hrun k. unfold glob_star in Hrun.
  rewrite (remove_backups_keys _ _ _ _ Hrun).
  destruct (fs !! k) as [c|] eqn:Hk.
  - rewrite bool_decide_eq_true_2; [done|].
    apply elem_of_elements, elem_of_dom. by eexists.
  - by destruct (_ && _), (old_backup folder k).
Qed.

(** X21.  For a label file whose folder, [os.path.dirname] of its path, has
    no wildcard character and no slash at its end: a backup that succeeds
    has removed the files that [glob.glob(folder + "/*")] lists with
    [_db_backup_] in their path, and no others, and has added one new file
    that holds the content of the label file; the label file and every other
    file are as they were.  The files listed are those of the folder named
    in the path: for a label file given without a directory part that is the
    root directory, and the backups beside the label file stay. *)
Theorem create_backup_rolls (timestamp database_path : string)
  (fs fs' : gmap string (list csv_line)) :
  plain_folder (dirname database_path) →
  create_backup timestamp database_path fs = BackedUp fs' →
  ∃ dst content,
    fs !! database_path = Some content ∧
    old_backup (dirname database_path) database_path = false ∧
    dst ≠ database_path ∧
    fs' !! dst = Some content ∧
    ∀ k, k ≠ dst →
         fs' !! k
         = if old_backup (dirname database_path) k then None else fs !! k.
Proof.
  intros _ Hrun. unfold create_backup in Hrun.
  destruct (remove_backups _ fs) as [fs1|] eqn:Hremove; [|done].
  pose proof (remove_backups_glob _ _ _ Hremove) as Hfs1.
  destruct (shutil_copy _ _ fs1) as [e|fs2] eqn:Hcopy; [done|].
  injection Hrun as <-. unfold shutil_copy in Hcopy.
  set (dst := copy_destination _ _ fs1) in *.
  destruct (fs1 !! database_path) as [content|] eqn:Hsrc; [|done].
  case_bool_decide as Hsame; [done|].
  destruct (is_dir dst fs1); [done|].
  destruct (_ || _); [|done]. injection Hcopy as <-.
  rewrite Hfs1 in Hsrc.
  destruct (old_backup _ database_path) eqn:Hold; [done|].
  exists dst, content. split_and!; [done|done|congruence| |].
  - apply lookup_insert_eq.
  - intros k Hk. by rewrite lookup_insert_ne, Hfs1.
Qed.

Lemma create_backup_rolls_witness :
  ∃ fs',
    create_backup "20230402-090000" "/d/mj.csv" disk_backup = BackedUp fs' ∧
    ∃ dst content,
      disk_backup !! "/d/mj.csv" = Some content ∧
      old_backup (dirname "/d/mj.csv") "/d/mj.csv" = false ∧
      dst ≠ "/d/mj.csv" ∧
      fs' !! dst = Some content ∧
      ∀ k, k ≠ dst →
           fs' !! k
           = if old_backup (dirname "/d/mj.csv") k then None
             else disk_backup !! k.
Proof.
  eexists. split; [vm_compute; reflexivity|].
  apply (create_backup_rolls "20230402-090000" "/d/mj.csv" disk_backup).
  - split; [reflexivity | vm_compute; reflexivity].
  - vm_compute. reflexivity.
Defined.

(** X22.  For a label file whose folder has no wildcard character and no
    slash at its end: a backup of a label file that is not there makes no
    backup and still removes the files that [glob.glob(folder + "/*")] lists
    with [_db_backup_] in their path: they are removed first, and the copy
    then raises [FileNotFoundError] (unless a directory with [_db_backup_]
    in its name has stopped the removal before). *)
Theorem create_backup_without_label_file (timestamp database_path : string)
  (fs : gmap string (list csv_line)) :
  plain_folder (dirname database_path) →
  fs !! database_path = None →
  match create_backup timestamp database_path fs with
  | BackedUp _ => False
  | RemoveFailed => True
  | CopyFailed e fs1 =>
      e = FileNotFoundError ∧
      ∀ k, fs1 !! k
           = if old_backup (dirname database_path) k then None else fs !! k
  end.
Proof.
  intros _ Hsrc. unfold create_backup.
  destruct (remove_backups _ fs) as [fs1|] eqn:Hremove; [|done].
  pose proof (remove_backups_glob _ _ _ Hremove) as Hfs1.
  unfold shutil_copy. rewrite Hfs1, Hsrc.
  by destruct (old_backup _ database_path).
Qed.

Lemma create_backup_without_label_file_witness :
  match create_backup "20230402-090000" "/d/gone.csv" disk_backup with
  | BackedUp _ => False
  | RemoveFailed => True
  | CopyFailed e fs1 =>
      e = FileNotFoundError ∧
      ∀ k, fs1 !! k
           = if old_backup (dirname "/d/gone.csv") k then None
             else disk_backup !! k
  end.
Proof.
  apply (create_backup_without_label_file "20230402-090000" "/d/gone.csv"
           disk_backup).
  - split; [reflexivity | vm_compute; reflexivity].
  - vm_compute. reflexivity.
Defined.

(** X23.  For a label file that [glob.glob(folder + "/*")] lists under its
    own path (it is given with its folder, which has no wildcard character
    and no slash at its end, and its name does not start with a dot): when
    the path has [_db_backup_] in it, in the name of the dataset or of a
    folder above it, the backup removes the label file with the old backups
    and then fails to copy it; no backup is made and the labels are lost. *)
Theorem create_backup_removes_marked_label_file
  (timestamp database_path : string) (fs : gmap string (list csv_line)) :
  plain_folder (dirname database_path) →
  listed (dirname database_path) database_path = Some (database_path, false) →
  contains "_db_backup_" database_path = true →
  match create_backup timestamp database_path fs with
  | BackedUp _ => False
  | RemoveFailed => True
  | CopyFailed e fs1 =>
      e = FileNotFoundError ∧ fs1 !! database_path = None
  end.
Proof.
  intros _ Hlisted Hmarker. unfold create_backup.
  destruct (remove_backups _ fs) as [fs1|] eqn:Hremove; [|done].
  pose proof (remove_backups_glob _ _ _ Hremove database_path) as Hfs1.
  unfold old_backup in Hfs1. rewrite Hlisted, Hmarker in Hfs1.
  unfold shutil_copy. by rewrite Hfs1.
Qed.

Lemma create_backup_removes_marked_label_file_witness :
  match create_backup "20230402-090000" "/d/old_db_backup_set.csv" disk_marked
  with
  | BackedUp _ => False
  | RemoveFailed => True
  | CopyFailed e fs1 =>
      e = FileNotFoundError ∧ fs1 !! "/d/old_db_backup_set.csv" = None
  end.
Proof.
  apply (create_backup_removes_marked_label_file "20230402-090000"
           "/d/old_db_backup_set.csv" disk_marked).
  - split; [reflexivity | vm_compute; reflexivity].
  - vm_compute. reflexivity.
  - vm_compute. reflexivity.
Defined.

(** ** [SimpleFC] *)

Lemma py_index_succ {A} (l : list A) (k : nat) x :
  l !! S k = Some x → py_index l (Z.of_nat k + 1) = Ok x.
Proof.
  intros Hk. replace (Z.of_nat k + 1) with (Z.of_nat (S k)) by lia.
  by apply py_index_nat.
Qed.

Lemma default_last_cons {A} (l : list A) : ∀ x y,
  default x (last (y :: l)) = default y (last l).
Proof.
  induction l as [|z l IH]; intros x y; [done|].
  change (last (y :: z :: l)) with (last (z :: l)).
  by rewrite (IH x z), (IH y z).
Qed.

Lemma add_layer_at layer_sizes p layers (i n_in n_out : nat) :
  layer_sizes !! i = Some n_in →
  layer_sizes !! S i = Some n_out →
  NnModel.add_layer layer_sizes p layers i
  = if bool_decide (Z.of_nat i < Z.of_nat (length layer_sizes) - 2)
    then if Qle_bool 0 p && Qle_bool p 1
         then TrainModel.Returns
                (layers ++ [NnModel.Linear n_in n_out; NnModel.ReLU;
                            NnModel.Dropout p])
         else TrainModel.Raises TrainModel.ValueError
    else TrainModel.Returns (layers ++ [NnModel.Linear n_in n_out]).
Proof.
  intros Hin Hout. unfold NnModel.add_layer, NnModel.new_Dropout.
  rewrite (py_index_nat _ _ _ Hin), (py_index_succ _ _ _ Hout).
  cbn [TrainModel.lift mbind TrainModel.outcome_bind].
  case_bool_decide; [|done]. destruct (_ && _); [|done].
  cbn [mbind TrainModel.outcome_bind]. by rewrite <- !app_assoc.
Qed.

(** The loop of [SimpleFC.__init__] from the index [length pre] on, where
    [pre] are the sizes before it and [n_in] is the size at it, when every
    [Dropout] it builds is accepted. *)
Lemma SimpleFC_loop (p : Q) (out : nat) : ∀ hidden n_in pre acc,
  hidden = [] ∨ Qle_bool 0 p && Qle_bool p 1 = true →
  for_each (NnModel.add_layer (pre ++ n_in :: hidden ++ [out]) p) acc
           (seq (length pre) (S (length hidden)))
  = TrainModel.Returns
      (acc ++ hidden_blocks p n_in hidden
           ++ [NnModel.Linear (default n_in (last hidden)) out]).
Proof.
  induction hidden as [|h hidden IH]; intros n_in pre acc Hp.
  - cbn [seq length for_each].
    rewrite (add_layer_at _ _ _ _ n_in out).
    + rewrite bool_decide_eq_false_2; [reflexivity|].
      rewrite length_app. cbn [length app]. lia.
    + by rewrite lookup_app_r, Nat.sub_diag by lia.
    + by rewrite lookup_app_r, Nat.sub_succ_l, Nat.sub_diag by lia.
  - destruct Hp as [|Hp]; [done|].
    cbn [length]. rewrite <- cons_seq. cbn [for_each].
    rewrite (add_layer_at _ _ _ _ n_in h).
    + rewrite bool_decide_eq_true_2, Hp.
      * cbn [mbind TrainModel.outcome_bind].
        specialize (IH h (pre ++ [n_in])
                      (acc ++ [NnModel.Linear n_in h; NnModel.ReLU;
                               NnModel.Dropout p]) (or_intror Hp)).
        rewrite length_app, Nat.add_1_r, <- app_assoc in IH.
        cbn [app] in IH. cbn [app]. rewrite IH.
        f_equal. rewrite <- !app_assoc. cbn [app hidden_blocks].
        by rewrite default_last_cons.
      * rewrite length_app. cbn [length]. rewrite length_app. cbn [length].
        lia.
    + by rewrite lookup_app_r, Nat.sub_diag by lia.
    + by rewrite lookup_app_r, Nat.sub_succ_l, Nat.sub_diag by lia.
Qed.

Lemma SimpleFC_returns input_size hidden_sizes output_size p :
  hidden_sizes = [] ∨ Qle_bool 0 p && Qle_bool p 1 = true →
  NnModel.SimpleFC input_size hidden_sizes output_size p
  = TrainModel.Returns
      (hidden_blocks p input_size hidden_sizes
         ++ [NnModel.Linear (default input_size (last hidden_sizes))
                            output_size]).
Proof.
  intros Hp. unfold NnModel.SimpleFC. cbn [app length]. rewrite length_app.
  cbn [length].
  replace (S (length hidden_sizes + 1) - 1)%nat
    with (S (length hidden_sizes)) by lia.
  by apply (SimpleFC_loop p output_size hidden_sizes input_size [] []).
Qed.

Lemma forward_app layers1 layers2 n :
  NnModel.forward (layers1 ++ layers2) n
  = NnModel.forward layers1 n ≫= NnModel.forward layers2.
Proof.
  unfold NnModel.forward. rewrite foldl_app.
  destruct (foldl _ (Some n) layers1) as [m|]; [done|].
  cbn [mbind option_bind]. by induction layers2.
Qed.

Lemma forward_hidden_blocks p : ∀ hidden n_in,
  NnModel.forward (hidden_blocks p n_in hidden) n_in
  = Some (default n_in (last hidden)).
Proof.
  induction hidden as [|h hidden IH]; intros n_in; [done|].
  cbn [hidden_blocks]. rewrite forward_app.
  assert (NnModel.forward
            [NnModel.Linear n_in h; NnModel.ReLU; NnModel.Dropout p] n_in
          = Some h) as ->.
  { cbn. by rewrite bool_decide_eq_true_2. }
  cbn [mbind option_bind]. by rewrite IH, default_last_cons.
Qed.

(** X24.  The construction of a [SimpleFC] raises [ValueError] when there is
    a hidden size and [dropout_prob] is not between 0 and 1: the first
    [nn.Dropout] refuses it.  In every other case (no hidden size, so that no
    [Dropout] is built, or a probability between 0 and 1) the layers are the
    hidden blocks, one [Linear]-[ReLU]-[Dropout] triple for every hidden
    size, each taking the size the one before it gives, followed by a single
    [Linear] layer into the output size; no index of the construction is out
    of range. *)
Theorem SimpleFC_layout (input_size : nat) (hidden_sizes : list nat)
  (output_size : nat) (dropout_prob : Q) :
  NnModel.SimpleFC input_size hidden_sizes output_size dropout_prob
  = if bool_decide (hidden_sizes = [])
       || (Qle_bool 0 dropout_prob && Qle_bool dropout_prob 1)
    then TrainModel.Returns
           (hidden_blocks dropout_prob input_size hidden_sizes
              ++ [NnModel.Linear (default input_size (last hidden_sizes))
                                 output_size])
    else TrainModel.Raises TrainModel.ValueError.
Proof.
  destruct (Qle_bool 0 dropout_prob && Qle_bool dropout_prob 1) eqn:Hp.
  - rewrite orb_true_r. apply SimpleFC_returns. by right.
  - rewrite orb_false_r. case_bool_decide as Hh.
    + apply SimpleFC_returns. by left.
    + destruct hidden_sizes as [|h hidden]; [done|].
      unfold NnModel.SimpleFC. cbn [app length]. rewrite length_app.
      cbn [length].
      replace (S (S (length hidden + 1)) - 1)%nat
        with (S (S (length hidden))) by lia.
      cbn [seq for_each].
      rewrite (add_layer_at _ _ _ _ input_size h) by done.
      rewrite bool_decide_eq_true_2, Hp; [done|].
      cbn [length]. rewrite length_app. cbn [length]. lia.
Qed.

(** X25.  When a [SimpleFC] is built (there is no hidden size, or
    [dropout_prob] is between 0 and 1), its [forward] takes an input of size
    [input_size] through every layer without a size mismatch to an output of
    size [output_size]. *)
Theorem SimpleFC_forward (input_size : nat) (hidden_sizes : list nat)
  (output_size : nat) (dropout_prob : Q) :
  hidden_sizes = [] ∨ (0 <= dropout_prob <= 1)%Q →
  ∃ layers,
    NnModel.SimpleFC input_size hidden_sizes output_size dropout_prob
      = TrainModel.Returns layers ∧
    NnModel.forward layers input_size = Some output_size.
Proof.
  intros Hp. eexists. split.
  - apply SimpleFC_returns. destruct Hp as [|[H0 H1]]; [by left|right].
    apply andb_true_iff. by split; apply Qle_bool_iff.
  - rewrite forward_app, forward_hidden_blocks.
    cbn. by rewrite bool_decide_eq_true_2.
Qed.

Lemma SimpleFC_forward_witness :
  ∃ layers,
    NnModel.SimpleFC 512 [264; 128; 64]%nat 1 (1 # 2)
      = TrainModel.Returns layers ∧
    NnModel.forward layers 512 = Some 1%nat.
Proof.
  apply (SimpleFC_forward 512 [264; 128; 64]%nat 1 (1 # 2)).
  right. split; unfold Qle; simpl; lia.
Defined.

(** ** The epochs of [train] *)

Lemma py_index_last {A} (l : list A) x : py_index (l ++ [x]) (-1) = Ok x.
Proof.
  unfold py_index. rewrite length_app. cbn [length].
  rewrite (bool_decide_eq_true_2 (-1 < 0)) by lia.
  rewrite bool_decide_eq_true_2 by lia.
  replace (Z.to_nat (Z.of_nat (length l + 1) + -1)) with (length l) by lia.
  by rewrite lookup_app_r, Nat.sub_diag.
Qed.

Lemma py_min_snoc (l : list Q) x :
  ∃ m, TrainModel.py_min (l ++ [x]) = TrainModel.Returns m.
Proof. destruct l; by eexists. Qed.

Section TrainProperties.

Context {Model : Type}.
Variable train_epoch : Model → Model * Q.
Variable get_test_loss : Model → Q.

Lemma epochs_snoc (n : nat) : ∀ m,
  TrainModel.epochs Model train_epoch (S n) m
  = TrainModel.epochs Model train_epoch n m
      ++ [train_epoch (Nat.iter n (fun m => (train_epoch m).1) m)].
Proof.
  induction n as [|n IH]; intros m; [done|].
  change (TrainModel.epochs Model train_epoch (S (S n)) m)
    with (train_epoch m
            :: TrainModel.epochs Model train_epoch (S n) (train_epoch m).1).
  rewrite IH, Nat.iter_succ_r. done.
Qed.

(** An epoch when neither division fails. *)
Lemma epoch_body_returns (n_epochs : Z) (n_batches : nat) t (epoch : nat) :
  n_epochs / 10 ≠ 0 → n_batches ≠ 0%nat →
  ∃ plots,
    TrainModel.epoch_body Model train_epoch get_test_loss n_epochs n_batches
      t epoch
    = TrainModel.Returns
        (TrainModel.mkTraining
           (train_epoch (TrainModel.net t)).1
           (TrainModel.train_losses t
              ++ [((train_epoch (TrainModel.net t)).2
                   / inject_Z (Z.of_nat n_batches))%Q])
           (TrainModel.test_losses t
              ++ [get_test_loss (train_epoch (TrainModel.net t)).1])
           (get_test_loss (train_epoch (TrainModel.net t)).1)
           plots).
Proof.
  intros Hd Hnb. unfold TrainModel.epoch_body.
  destruct (train_epoch (TrainModel.net t)) as [net1 total].
  unfold TrainModel.py_div, TrainModel.py_mod.
  rewrite (bool_decide_eq_false_2 (n_batches = 0%nat)) by done.
  rewrite (bool_decide_eq_false_2 (n_epochs / 10 = 0)) by done.
  cbn [mbind TrainModel.outcome_bind fst snd].
  case_bool_decide; [|by eexists].
  unfold TrainModel.plot_losses. cbn [TrainModel.test_losses].
  destruct (py_min_snoc (TrainModel.test_losses t) (get_test_loss net1))
    as [m ->].
  by eexists.
Qed.

(** The loop over the epochs when neither division fails. *)
Lemma epochs_loop (n_epochs : Z) (n_batches : nat) :
  n_epochs / 10 ≠ 0 → n_batches ≠ 0%nat →
  ∀ k i t, ∃ plots,
    for_each (TrainModel.epoch_body Model train_epoch get_test_loss
                n_epochs n_batches) t (seq i k)
    = TrainModel.Returns
        (TrainModel.mkTraining
           (Nat.iter k (fun m => (train_epoch m).1) (TrainModel.net t))
           (TrainModel.train_losses t
              ++ map (fun r => (r.2 / inject_Z (Z.of_nat n_batches))%Q)
                     (TrainModel.epochs Model train_epoch k
                        (TrainModel.net t)))
           (TrainModel.test_losses t
              ++ map (fun r => get_test_loss r.1)
                     (TrainModel.epochs Model train_epoch k
                        (TrainModel.net t)))
           (match k with
            | O => TrainModel.test_loss t
            | S _ => get_test_loss
                       (Nat.iter k (fun m => (train_epoch m).1)
                                 (TrainModel.net t))
            end)
           plots).
Proof.
  intros Hd Hnb. induction k as [|k IH]; intros i t.
  - exists (TrainModel.n_plots t). destruct t. cbn. by rewrite !app_nil_r.
  - cbn [seq for_each].
    destruct (epoch_body_returns n_epochs n_batches t i Hd Hnb)
      as [plots1 ->].
    cbn [mbind TrainModel.outcome_bind].
    destruct (IH (S i) (TrainModel.mkTraining
                          (train_epoch (TrainModel.net t)).1
                          (TrainModel.train_losses t
                             ++ [((train_epoch (TrainModel.net t)).2
                                  / inject_Z (Z.of_nat n_batches))%Q])
                          (TrainModel.test_losses t
                             ++ [get_test_loss
                                   (train_epoch (TrainModel.net t)).1])
                          (get_test_loss (train_epoch (TrainModel.net t)).1)
                          plots1)) as [plots ->].
    exists plots.
    cbn [TrainModel.net TrainModel.train_losses TrainModel.test_losses
         TrainModel.test_loss TrainModel.epochs map].
    rewrite Nat.iter_succ_r, <- !app_assoc. cbn [app].
    f_equal. f_equal. by destruct k.
Qed.

(** An epoch when the plotting interval is zero. *)
Lemma epoch_body_raises (n_epochs : Z) (n_batches : nat) t (epoch : nat) :
  n_epochs / 10 = 0 →
  TrainModel.epoch_body Model train_epoch get_test_loss n_epochs n_batches
    t epoch
  = TrainModel.Raises TrainModel.ZeroDivisionError.
Proof.
  intros Hd. unfold TrainModel.epoch_body.
  destruct (train_epoch (TrainModel.net t)) as [net1 total].
  unfold TrainModel.py_div. case_bool_decide; [done|].
  cbn [mbind TrainModel.outcome_bind]. unfold TrainModel.py_mod.
  by rewrite bool_decide_eq_true_2.
Qed.

(** X26.  With one to nine epochs the training does not end: after the first
    epoch the plotting interval [n_epochs // 10] is zero, and taking the
    epoch modulo it raises [ZeroDivisionError]; no model is saved. *)
Theorem train_fewer_than_ten_epochs (n_epochs : Z) (n_batches : nat)
  (dont_save : bool) (net0 : Model) :
  1 ≤ n_epochs < 10 →
  TrainModel.train Model train_epoch get_test_loss n_epochs n_batches
    dont_save net0
  = TrainModel.Raises TrainModel.ZeroDivisionError.
Proof.
  intros Hn. unfold TrainModel.train.
  destruct (Z.to_nat n_epochs) as [|k] eqn:Hk; [lia|].
  cbn [seq for_each]. rewrite epoch_body_raises; [done|].
  apply Z.div_small. lia.
Qed.

(** X27.  Without epochs ([n_epochs] zero or negative) the training raises
    [ValueError]: the list of test losses is empty when its minimum is
    taken, by the report or by the final plot. *)
Theorem train_without_epochs (n_epochs : Z) (n_batches : nat)
  (dont_save : bool) (net0 : Model) :
  n_epochs ≤ 0 →
  TrainModel.train Model train_epoch get_test_loss n_epochs n_batches
    dont_save net0
  = TrainModel.Raises TrainModel.ValueError.
Proof.
  intros Hn. unfold TrainModel.train.
  replace (Z.to_nat n_epochs) with 0%nat by lia.
  cbn [seq for_each mret TrainModel.outcome_ret mbind TrainModel.outcome_bind
       TrainModel.test_loss TrainModel.test_losses].
  by destruct (negb _).
Qed.

(** X28.  With ten epochs or more and a training loader that is not empty,
    the training ends: the model has gone through [n_epochs] epochs, the two
    loss curves have one point for each epoch (the mean loss of its batches
    and the test loss of the model after it), and unless [dont_save] is set
    the model saved is the final one, under the test loss of the last
    epoch. *)
Theorem train_completes (n_epochs : Z) (n_batches : nat) (dont_save : bool)
  (net0 : Model) :
  10 ≤ n_epochs → (0 < n_batches)%nat →
  ∃ t,
    TrainModel.train Model train_epoch get_test_loss n_epochs n_batches
      dont_save net0
    = TrainModel.Returns
        (t, if dont_save then None
            else Some (TrainModel.net t, get_test_loss (TrainModel.net t))) ∧
    TrainModel.net t
    = Nat.iter (Z.to_nat n_epochs) (fun m => (train_epoch m).1) net0 ∧
    TrainModel.train_losses t
    = map (fun r => (r.2 / inject_Z (Z.of_nat n_batches))%Q)
          (TrainModel.epochs Model train_epoch (Z.to_nat n_epochs) net0) ∧
    TrainModel.test_losses t
    = map (fun r => get_test_loss r.1)
          (TrainModel.epochs Model train_epoch (Z.to_nat n_epochs) net0) ∧
    TrainModel.test_loss t = get_test_loss (TrainModel.net t).
Proof.
  intros Hn Hnb. unfold TrainModel.train.
  assert (n_epochs / 10 ≠ 0) as Hd.
  { assert (1 ≤ n_epochs / 10); [|lia]. apply Z.div_le_lower_bound; lia. }
  destruct (epochs_loop n_epochs n_batches Hd ltac:(lia) (Z.to_nat n_epochs) 0%nat
              (TrainModel.mkTraining net0 [] [] (get_test_loss net0) 0%nat))
    as [plots ->].
  destruct (Z.to_nat n_epochs) as [|k] eqn:Hk; [lia|].
  cbn [mbind TrainModel.outcome_bind TrainModel.net TrainModel.train_losses
       TrainModel.test_losses TrainModel.test_loss app].
  set (final := Nat.iter (S k) _ net0).
  assert (map (fun r => get_test_loss r.1)
              (TrainModel.epochs Model train_epoch (S k) net0)
          = map (fun r => get_test_loss r.1)
                (TrainModel.epochs Model train_epoch k net0)
              ++ [get_test_loss final]) as Hlast.
  { by rewrite epochs_snoc, map_app. }
  destruct (py_min_snoc
              (map (fun r => get_test_loss r.1)
                   (TrainModel.epochs Model train_epoch k net0))
              (get_test_loss final)) as [m Hm].
  rewrite <- Hlast in Hm. rewrite Hm.
  assert ((if negb (Qle_bool (get_test_loss final) 0)
           then TrainModel.Returns m
           else TrainModel.Returns (get_test_loss final))
          = TrainModel.Returns
              (if negb (Qle_bool (get_test_loss final) 0) then m
               else get_test_loss final)) as -> by (by destruct (negb _)).
  cbn [mbind TrainModel.outcome_bind]. unfold TrainModel.plot_losses.
  cbn [TrainModel.net TrainModel.train_losses TrainModel.test_losses
       TrainModel.test_loss TrainModel.n_plots].
  rewrite Hm. cbn [mbind TrainModel.outcome_bind].
  exists (TrainModel.mkTraining final
            (map (fun r => (r.2 / inject_Z (Z.of_nat n_batches))%Q)
                 (TrainModel.epochs Model train_epoch (S k) net0))
            (map (fun r => get_test_loss r.1)
                 (TrainModel.epochs Model train_epoch (S k) net0))
            (get_test_loss final) (S plots)).
  split; [|done].
  destruct dont_save; [done|].
  cbn [TrainModel.net TrainModel.test_losses].
  by rewrite Hlast, py_index_last.
Qed.

End TrainProperties.

Lemma train_fewer_than_ten_epochs_witness :
  TrainModel.train nat count_epoch flat_loss 9 4 false 0%nat
  = TrainModel.Raises TrainModel.ZeroDivisionError.
Proof.
  apply (train_fewer_than_ten_epochs count_epoch flat_loss 9 4 false 0%nat).
  lia.
Defined.

Lemma train_without_epochs_witness :
  TrainModel.train nat count_epoch flat_loss 0 4 false 0%nat
  = TrainModel.Raises TrainModel.ValueError.
Proof.
  apply (train_without_epochs count_epoch flat_loss 0 4 false 0%nat). lia.
Defined.

Lemma train_completes_witness :
  ∃ t,
    TrainModel.train nat count_epoch flat_loss 10 4 false 0%nat
    = TrainModel.Returns
        (t, Some (TrainModel.net t, flat_loss (TrainModel.net t))) ∧
    TrainModel.net t
    = Nat.iter (Z.to_nat 10) (fun m => (count_epoch m).1) 0%nat ∧
    TrainModel.train_losses t
    = map (fun r => (r.2 / inject_Z (Z.of_nat 4))%Q)
          (TrainModel.epochs nat count_epoch (Z.to_nat 10) 0%nat) ∧
    TrainModel.test_losses t
    = map (fun r => flat_loss r.1)
          (TrainModel.epochs nat count_epoch (Z.to_nat 10) 0%nat) ∧
    TrainModel.test_loss t = flat_loss (TrainModel.net t).
Proof.
  apply (train_completes count_epoch flat_loss 10 4 false 0%nat); lia.
Defined.

(** ** The path of the label file *)

Lemma list_ascii_app (a b : string) :
  String.list_ascii_of_string (a +:+ b)
  = String.list_ascii_of_string a ++ String.list_ascii_of_string b.
Proof.
  induction a as [|c a IH]; [done|].
  change (c :: String.list_ascii_of_string (a +:+ b)
          = c :: String.list_ascii_of_string a
              ++ String.list_ascii_of_string b).
  by rewrite IH.
Qed.

Lemma drop_while_app {A} (f : A → bool) l x rest :
  forallb f l = true → f x = false →
  drop_while f (l ++ x :: rest) = x :: rest.
Proof.
  intros Hl Hx. induction l as [|y l IH]; cbn [app drop_while].
  - by rewrite Hx.
  - cbn [forallb] in Hl. apply andb_true_iff in Hl as [-> Hl]. by apply IH.
Qed.

Lemma take_while_app {A} (f : A → bool) l x rest :
  forallb f l = true → f x = false →
  take_while f (l ++ x :: rest) = l.
Proof.
  intros Hl Hx. induction l as [|y l IH]; cbn [app take_while].
  - by rewrite Hx.
  - cbn [forallb] in Hl. apply andb_true_iff in Hl as [-> Hl].
    by rewrite IH.
Qed.

Lemma forallb_rev {A} (f : A → bool) l :
  forallb f l = true → forallb f (rev l) = true.
Proof.
  rewrite !forallb_forall. intros Hl x Hx. apply Hl. by apply in_rev.
Qed.

(** [dirname] and [basename] of a path made of a folder, a slash and a
    name. *)
Lemma dirname_basename folder name :
  ends_in_name folder → no_slash name →
  dirname (folder +:+ "/" +:+ name) = folder ∧
  basename (folder +:+ "/" +:+ name) = name.
Proof.
  unfold ends_in_name, no_slash. intros Hfolder Hname.
  destruct (rev (String.list_ascii_of_string folder)) as [|c tail] eqn:Hrev;
    [done|].
  unfold dirname, basename.
  rewrite !list_ascii_app, rev_app_distr.
  change (String.list_ascii_of_string "/") with ["/"%char].
  rewrite rev_app_distr, Hrev. cbn [rev app]. rewrite <- app_assoc.
  cbn [app]. split.
  - rewrite drop_while_app by (by apply forallb_rev || done).
    assert (rev ("/"%char :: c :: tail)
            = String.list_ascii_of_string folder ++ ["/"%char]) as ->.
    { cbn [rev]. by rewrite <- (rev_involutive
                                  (String.list_ascii_of_string folder)), Hrev. }
    rewrite forallb_app. 
    assert (forallb is_slash (String.list_ascii_of_string folder) = false)
      as ->.
    { rewrite <- (rev_involutive (String.list_ascii_of_string folder)), Hrev.
      cbn [rev]. rewrite forallb_app. cbn [forallb]. rewrite Hfolder.
      by rewrite andb_false_r. }
    cbn [andb]. rewrite rev_app_distr, Hrev. cbn [rev app drop_while].
    change (is_slash "/"%char) with true. cbn iota. rewrite Hfolder.
    rewrite <- Hrev, rev_involutive.
    apply String.string_of_list_ascii_of_string.
  - rewrite take_while_app by (by apply forallb_rev || done).
    rewrite rev_involutive. apply String.string_of_list_ascii_of_string.
Qed.

(** X29.  For an image folder given as a parent folder, a slash and a name
    (the name may be empty: a root directory written with a slash at its
    end), the label file is the path of the image folder with [.csv] put
    after it, in the parent folder; for a root directory that ends in a slash
    that is the hidden file [.csv] inside the image folder. *)
Theorem label_file_beside_images (folder name : string) :
  ends_in_name folder → no_slash name →
  label_file_path (folder +:+ "/" +:+ name)
  = folder +:+ "/" +:+ name +:+ ".csv" ∧
  dirname (label_file_path (folder +:+ "/" +:+ name)) = folder.
Proof.
  intros Hfolder Hname.
  destruct (dirname_basename folder name Hfolder Hname) as [Hdir Hbase].
  assert (label_file_path (folder +:+ "/" +:+ name)
          = folder +:+ "/" +:+ name +:+ ".csv") as Hfile.
  { unfold label_file_path. rewrite Hdir, Hbase. unfold path_join.
    unfold ends_in_name in Hfolder.
    destruct (rev (String.list_ascii_of_string folder)) as [|c tail]; [done|].
    by rewrite Hfolder. }
  split; [done|]. rewrite Hfile.
  apply (dirname_basename folder (name +:+ ".csv") Hfolder).
  unfold no_slash in *. rewrite list_ascii_app, forallb_app, Hname. done.
Qed.

Lemma label_file_beside_images_witness :
  label_file_path ("/data/sets" +:+ "/" +:+ "")
  = "/data/sets" +:+ "/" +:+ "" +:+ ".csv" ∧
  dirname (label_file_path ("/data/sets" +:+ "/" +:+ "")) = "/data/sets".
Proof.
  apply (label_file_beside_images "/data/sets" ""); vm_compute; reflexivity.
Defined.
